(** * PyMC3 multivariate log-density kernels and the array step-method contract

    A shallow embedding of
      - [pymc3/step_methods/arraystep.py]  (BlockedStep, ArrayStep, metrop_select)
      - [pymc3/distributions/multivariate.py]  (quaddist_*, MvNormal, Multinomial,
        MatrixNormal)
    together with the helpers they import.

    Numbers.  A float is modelled as an extended real: the three IEEE special
    values plus a real payload.  Rounding and overflow are not modelled; every
    property below depends only on the special values, on comparisons and on
    control flow.

    Exceptions.  Python code that can raise is embedded in an error monad
    [result]; the exception class is kept so that a ValueError can be told
    apart from a LinAlgError. *)

From Stdlib Require Import String.
From Stdlib Require Import Reals Lra Lia ZArith List Bool Sorted.
Import ListNotations.

Local Open Scope R_scope.

(* ------------------------------------------------------------------ *)
(** ** Exceptions and the error monad *)

Inductive exn : Type :=
| ValueError
| TypeError
| KeyError
| IndexError
| LinAlgError
| NotImplementedError.

Inductive result (A : Type) : Type :=
| Ok (a : A)
| Raise (e : exn).

Arguments Ok {A} a.
Arguments Raise {A} e.

Definition bind {A B : Type} (m : result A) (k : A -> result B) : result B :=
  match m with
  | Ok a => k a
  | Raise e => Raise e
  end.

Notation "x <- m ;; k" := (bind m (fun x => k))
  (at level 61, m at next level, right associativity).

Fixpoint mapM {A B : Type} (f : A -> result B) (l : list A) : result (list B) :=
  match l with
  | [] => Ok []
  | a :: l' =>
      b <- f a ;;
      bs <- mapM f l' ;;
      Ok (b :: bs)
  end.

(* ------------------------------------------------------------------ *)
(** ** Floats as extended reals *)

Inductive fl : Type :=
| NaN
| NInf
| PInf
| Fin (r : R).

Definition Rltb (a b : R) : bool := if Rlt_dec a b then true else false.
Definition Rleb (a b : R) : bool := if Rle_dec a b then true else false.
Definition Reqb (a b : R) : bool := if Req_dec_T a b then true else false.

(** [np.isfinite] *)
Definition isfinite (x : fl) : bool :=
  match x with
  | Fin _ => true
  | _ => false
  end.

(** [x < y]; every comparison with NaN is false. *)
Definition flt (x y : fl) : bool :=
  match x, y with
  | NaN, _ | _, NaN => false
  | NInf, NInf => false
  | NInf, _ => true
  | _, NInf => false
  | PInf, _ => false
  | Fin _, PInf => true
  | Fin a, Fin b => Rltb a b
  end.

(** [x == y] *)
Definition feq (x y : fl) : bool :=
  match x, y with
  | NInf, NInf => true
  | PInf, PInf => true
  | Fin a, Fin b => Reqb a b
  | _, _ => false
  end.

Definition fle (x y : fl) : bool := flt x y || feq x y.
Definition fgt (x y : fl) : bool := flt y x.
Definition fge (x y : fl) : bool := fle y x.

Definition fneg (x : fl) : fl :=
  match x with
  | NaN => NaN
  | NInf => PInf
  | PInf => NInf
  | Fin a => Fin (- a)
  end.

Definition fadd (x y : fl) : fl :=
  match x, y with
  | NaN, _ | _, NaN => NaN
  | NInf, PInf | PInf, NInf => NaN
  | NInf, _ | _, NInf => NInf
  | PInf, _ | _, PInf => PInf
  | Fin a, Fin b => Fin (a + b)
  end.

Definition fsub (x y : fl) : fl := fadd x (fneg y).

(** Sign of a real, as the infinity it selects when multiplied by one. *)
Definition inf_of_sign (positive : bool) : fl := if positive then PInf else NInf.

Definition fmul (x y : fl) : fl :=
  match x, y with
  | NaN, _ | _, NaN => NaN
  | Fin a, Fin b => Fin (a * b)
  | Fin a, PInf | PInf, Fin a =>
      if Reqb a 0 then NaN else inf_of_sign (Rltb 0 a)
  | Fin a, NInf | NInf, Fin a =>
      if Reqb a 0 then NaN else inf_of_sign (Rltb a 0)
  | PInf, PInf | NInf, NInf => PInf
  | PInf, NInf | NInf, PInf => NInf
  end.

(** Division; a finite non-zero value over zero is an infinity (numpy warns,
    it does not raise), zero over zero is NaN. *)
Definition fdiv (x y : fl) : fl :=
  match x, y with
  | NaN, _ | _, NaN => NaN
  | Fin a, Fin b =>
      if Reqb b 0
      then (if Reqb a 0 then NaN else inf_of_sign (Rltb 0 a))
      else Fin (a / b)
  | Fin _, _ => Fin 0
  | PInf, Fin b => inf_of_sign (Rleb 0 b)
  | NInf, Fin b => inf_of_sign (Rltb b 0)
  | _, _ => NaN
  end.

(** [np.log] / [at.log]: -inf at zero, NaN below zero. *)
Definition flog (x : fl) : fl :=
  match x with
  | NaN => NaN
  | NInf => NaN
  | PInf => PInf
  | Fin a =>
      if Rltb 0 a then Fin (ln a)
      else if Reqb a 0 then NInf else NaN
  end.

Definition fsqrt (x : fl) : fl :=
  match x with
  | NaN => NaN
  | NInf => NaN
  | PInf => PInf
  | Fin a => if Rleb 0 a then Fin (sqrt a) else NaN
  end.

Definition fsum (l : list fl) : fl := fold_left fadd l (Fin 0).

Arguments Rltb : simpl never.
Arguments Rleb : simpl never.
Arguments Reqb : simpl never.

(** Prop-level readings used in statements. *)
Definition finite (x : fl) : Prop := exists r, x = Fin r.

Definition lt_fl (x y : fl) : Prop :=
  match x, y with
  | NaN, _ | _, NaN => False
  | NInf, NInf => False
  | NInf, _ => True
  | _, NInf => False
  | PInf, _ => False
  | Fin _, PInf => True
  | Fin a, Fin b => a < b
  end.

(* ------------------------------------------------------------------ *)
(** ** Tensors of rank 0, 1 and 2

    A matrix is the list of its rows.  Tensors of rank 3 and more, which
    [quaddist_parse] and [MatrixNormal.logp] reject with a ValueError, are
    outside the model. *)

Definition matrix (A : Type) : Type := list (list A).

Inductive tensor (A : Type) : Type :=
| T0 (x : A)
| T1 (v : list A)
| T2 (m : matrix A).

Arguments T0 {A} x.
Arguments T1 {A} v.
Arguments T2 {A} m.

Definition ndim {A : Type} (t : tensor A) : nat :=
  match t with
  | T0 _ => 0
  | T1 _ => 1
  | T2 _ => 2
  end.

Definition tmap {A B : Type} (f : A -> B) (t : tensor A) : tensor B :=
  match t with
  | T0 x => T0 (f x)
  | T1 v => T1 (map f v)
  | T2 m => T2 (map (map f) m)
  end.

(** numpy broadcasting prepends axes of length one. *)
Definition promote {A : Type} (t : tensor A) : matrix A :=
  match t with
  | T0 x => [[x]]
  | T1 v => [v]
  | T2 m => m
  end.

Definition demote {A : Type} (rank : nat) (m : matrix A) : tensor A :=
  match rank, m with
  | 0%nat, (x :: _) :: _ => T0 x
  | 1%nat, v :: _ => T1 v
  | _, _ => T2 m
  end.

(** Broadcasting along one axis: equal lengths pair up, a length-one axis is
    repeated, anything else is a ValueError. *)
Definition bzip {A B C : Type} (f : A -> B -> result C)
    (xs : list A) (ys : list B) : result (list C) :=
  if Nat.eqb (length xs) (length ys)
  then mapM (fun p => f (fst p) (snd p)) (combine xs ys)
  else match xs, ys with
       | [x], _ => mapM (f x) ys
       | _, [y] => mapM (fun x => f x y) xs
       | _, _ => Raise ValueError
       end.

Definition bvec {A B C : Type} (f : A -> B -> C) : list A -> list B -> result (list C) :=
  bzip (fun x y => Ok (f x y)).

Definition bmat {A B C : Type} (f : A -> B -> C) : matrix A -> matrix B -> result (matrix C) :=
  bzip (bvec f).

(** Elementwise binary operation with broadcasting. *)
Definition tmap2 {A B C : Type} (f : A -> B -> C) (t1 : tensor A) (t2 : tensor B)
  : result (tensor C) :=
  r <- bmat f (promote t1) (promote t2) ;;
  Ok (demote (Nat.max (ndim t1) (ndim t2)) r).

(** [at.all] on a tensor of truth values. *)
Definition tall (t : tensor bool) : bool :=
  forallb (forallb (fun b => b)) (promote t).

(* ------------------------------------------------------------------ *)
(** ** The tensor library (aesara / scipy) as the source uses it *)

Module Aesara.

Fixpoint diag_from {A : Type} (i : nat) (m : matrix A) : list A :=
  match m with
  | [] => []
  | r :: rs =>
      match nth_error r i with
      | Some x => x :: diag_from (S i) rs
      | None => []
      end
  end.

(** [at.diag] of a matrix *)
Definition diag {A : Type} (m : matrix A) : list A := diag_from 0 m.

Definition transpose (m : matrix fl) : matrix fl :=
  map (fun j => map (fun r => nth j r NaN) m) (seq 0 (length (hd [] m))).

Definition is_square {A : Type} (m : matrix A) : bool :=
  forallb (fun r => Nat.eqb (length r) (length m)) m.

(** [at.switch(c, x, y)] for a scalar condition [c] and a scalar alternative
    [y]: both are broadcast over the matrix [x]. *)
Definition switch_scalar {A : Type} (c : bool) (x : matrix A) (y : A) : matrix A :=
  map (map (fun e => if c then e else y)) x.

Definition dot (xs ys : list fl) : fl :=
  fsum (map (fun p => fmul (fst p) (snd p)) (combine xs ys)).

Definition vadd (x y : list fl) : list fl :=
  map (fun p => fadd (fst p) (snd p)) (combine x y).

Definition vsub (x y : list fl) : list fl :=
  map (fun p => fsub (fst p) (snd p)) (combine x y).

(** [np.asarray_chkfinite(a)] accepts [a]: no entry is NaN or infinite.  The
    routines of scipy.linalg are called with their default
    [check_finite=True], and raise a ValueError on any other array. *)
Definition all_finite (m : matrix fl) : bool := forallb (forallb isfinite) m.

(** *** Cholesky factorisation (row by row, lower triangle) *)

Definition chol_offdiag (a : list fl) (above : matrix fl) : list fl :=
  fold_left
    (fun cur lj =>
       cur ++ [fdiv (fsub (nth (length cur) a NaN) (dot cur lj)) (last lj NaN)])
    above [].

Definition chol_row (a : list fl) (above : matrix fl) : result (list fl) :=
  let cur := chol_offdiag a above in
  let s := fsub (nth (length cur) a NaN) (dot cur cur) in
  if flt (Fin 0) s then Ok (cur ++ [fsqrt s]) else Raise LinAlgError.

Fixpoint chol_rows (rows above : matrix fl) : result (matrix fl) :=
  match rows with
  | [] => Ok above
  | a :: rest =>
      r <- chol_row a above ;;
      chol_rows rest (above ++ [r])
  end.

(** Rows are filled with zeros above the diagonal, to [n] columns. *)
Definition pad_row (n : nat) (r : list fl) : list fl :=
  firstn n (r ++ repeat (Fin 0) n).

(** [scipy.linalg.cholesky(a, lower=True)]: ValueError when an entry of [a]
    is NaN or infinite (the finiteness check comes first) or when [a] is not
    square, LinAlgError when a pivot is not strictly positive. *)
Definition scipy_cholesky (a : matrix fl) : result (matrix fl) :=
  if negb (all_finite a) then Raise ValueError
  else if is_square a
  then (l <- chol_rows a [] ;; Ok (map (pad_row (length a)) l))
  else Raise ValueError.

Inductive on_error : Type :=
| on_error_raise
| on_error_nan.

(** The [Cholesky(lower=True, on_error=...)] op: with [on_error="nan"] a
    failed factorisation (a LinAlgError) yields a NaN matrix of the input's
    shape; a ValueError of scipy is not caught. *)
Definition Cholesky (mode : on_error) (x : matrix fl) : result (matrix fl) :=
  match scipy_cholesky x with
  | Ok l => Ok l
  | Raise LinAlgError =>
      match mode with
      | on_error_raise => Raise LinAlgError
      | on_error_nan => Ok (map (map (fun _ => NaN)) x)
      end
  | Raise e => Raise e
  end.

(** *** Triangular solves *)

Definition lincomb (l : list fl) (xs : matrix fl) (width : nat) : list fl :=
  fold_left (fun acc p => vadd acc (map (fmul (fst p)) (snd p)))
            (combine l xs) (repeat (Fin 0) width).

Fixpoint forward_subst (rows : list (list fl * list fl)) (solved : matrix fl)
  : matrix fl :=
  match rows with
  | [] => solved
  | (l, b) :: rest =>
      let x := map (fun e => fdiv e (nth (length solved) l NaN))
                   (vsub b (lincomb l solved (length b))) in
      forward_subst rest (solved ++ [x])
  end.

(** [solve_lower_triangular(L, B)], that is
    [scipy.linalg.solve_triangular(L, B, lower=True)]: ValueError when an
    entry of [L] or [B] is NaN or infinite or on a shape mismatch,
    LinAlgError when [L] is singular (a zero on its diagonal). *)
Definition solve_lower (L B : matrix fl) : result (matrix fl) :=
  if negb (all_finite L) || negb (all_finite B)
  then Raise ValueError
  else if negb (is_square L) || negb (Nat.eqb (length B) (length L))
  then Raise ValueError
  else if existsb (fun d => feq d (Fin 0)) (diag L)
  then Raise LinAlgError
  else Ok (forward_subst (combine L B) []).

(** [solve_upper_triangular(U, B)], by reversing the order of the unknowns. *)
Definition solve_upper (U B : matrix fl) : result (matrix fl) :=
  x <- solve_lower (rev (map (@rev fl) U)) (rev B) ;;
  Ok (rev x).

(** [matrix_dot(A, B)] *)
Definition matrix_dot (a b : matrix fl) : result (matrix fl) :=
  if forallb (fun r => Nat.eqb (length r) (length b)) a
  then Ok (map (fun r => map (fun c => dot r c) (transpose b)) a)
  else Raise ValueError.

Definition trace (m : matrix fl) : fl := fsum (diag m).

(** [broadcast_to(a, (rows, cols))] *)
Definition broadcast_to (a : tensor fl) (rows cols : nat) : result (matrix fl) :=
  r <- bmat (fun x (_ : unit) => x) (promote a) (repeat (repeat tt cols) rows) ;;
  if Nat.eqb (length r) rows && forallb (fun row => Nat.eqb (length row) cols) r
  then Ok r
  else Raise ValueError.

End Aesara.

(* ------------------------------------------------------------------ *)
(** ** Shapes *)

(** [m] has [r] rows of [c] entries. *)
Definition has_shape {A : Type} (r c : nat) (m : matrix A) : Prop :=
  length m = r /\ Forall (fun row => length row = c) m.

(** The matrix [m] with its diagonal entries replaced by [y] and every other
    entry kept: the reading of "the diagonal is replaced by 1" in section
    4.1 of the specification. *)
Definition diag_replaced_by {A : Type} (y : A) (m : matrix A) : matrix A :=
  map (fun ir =>
         map (fun je => if Nat.eqb (fst ir) (fst je) then y else snd je)
             (combine (seq 0 (length (snd ir))) (snd ir)))
      (combine (seq 0 (length m)) m).

(* ------------------------------------------------------------------ *)
(** ** dist_math: the bounding combinator and the log helpers *)

Module DistMath.

(** Modelled from the spec: [alltrue_elemwise] of pymc3/distributions/dist_math.py,
    which is not among the sources.  Section 4.2: conditions are reduced with
    logical AND, elementwise. *)
Definition alltrue_elemwise (conds : list (tensor bool)) : result (tensor bool) :=
  fold_left (fun acc c => a <- acc ;; tmap2 andb a c) conds (Ok (T0 true)).

(** Modelled from the spec: [alltrue_scalar] of pymc3/distributions/dist_math.py.
    Section 4.2: with [broadcast_conditions] false the conditions are reduced
    to a scalar truth value first. *)
Definition alltrue_scalar (conds : list (tensor bool)) : bool :=
  forallb tall conds.

(** The selection [expr where the condition holds, -inf elsewhere]. *)
Definition switch_neg_inf (c : tensor bool) (expr : tensor fl) : result (tensor fl) :=
  tmap2 (fun (b : bool) x => if b then x else NInf) c expr.

(** Modelled from the spec: [bound] of pymc3/distributions/dist_math.py.
    Section 4.2: [bound(expr, *conditions, broadcast_conditions=True)] returns
    [expr] where every condition holds elementwise and negative infinity
    elsewhere; when the model's skip-bounds-checking configuration is active
    ([check_bounds] false) it returns [expr] unchanged. *)
Definition bound (check_bounds broadcast_conditions : bool)
    (expr : tensor fl) (conds : list (tensor bool)) : result (tensor fl) :=
  if negb check_bounds then Ok expr
  else if broadcast_conditions
  then (c <- alltrue_elemwise conds ;; switch_neg_inf c expr)
  else switch_neg_inf (T0 (alltrue_scalar conds)) expr.

(** Modelled from the spec: [factln] of pymc3/distributions/dist_math.py,
    section 4.4: [ln(n!)].  Below zero, where the spec is silent, the value is
    the pole of the log-gamma function. *)
Definition factln (n : Z) : fl :=
  if (0 <=? n)%Z then Fin (ln (INR (fact (Z.to_nat n)))) else PInf.

(** Modelled from the spec: [logpow] of pymc3/distributions/dist_math.py,
    section 4.4: the term [value * ln(p)]. *)
Definition logpow (p : fl) (value : Z) : fl :=
  fmul (Fin (IZR value)) (flog p).

End DistMath.

(* ------------------------------------------------------------------ *)
(** ** multivariate.py *)

Module Multivariate.

Import Aesara DistMath.

(** [cholesky = Cholesky(lower=True, on_error="nan")] *)
Definition cholesky : matrix fl -> result (matrix fl) := Cholesky on_error_nan.

(** [ok = at.all(diag > 0)] *)
Definition chol_ok (chol_mat : matrix fl) : bool :=
  forallb (fun d => fgt d (Fin 0)) (diag chol_mat).

(** [chol_cov = at.switch(ok, chol_mat, 1)] *)
Definition chol_for_solve (chol_mat : matrix fl) : matrix fl :=
  switch_scalar (chol_ok chol_mat) chol_mat (Fin 1).

Definition quaddist_chol (delta chol_mat : matrix fl)
  : result (list fl * fl * bool) :=
  let diag := diag chol_mat in
  let ok := chol_ok chol_mat in
  let chol_cov := chol_for_solve chol_mat in
  sol <- solve_lower chol_cov (transpose delta) ;;
  let delta_trans := transpose sol in
  let quaddist := map (fun r => fsum (map (fun e => fmul e e) r)) delta_trans in
  let logdet := fsum (map flog diag) in
  Ok (quaddist, logdet, ok).

Definition quaddist_parse (value mu : tensor fl) (cov : matrix fl)
  : result (tensor fl * fl * bool) :=
  match value with
  | T0 _ => Raise ValueError
  | _ =>
      let onedim := Nat.eqb (ndim value) 1 in
      (* for a vector, [promote] is [value[None, :]] *)
      delta <- bmat fsub (promote value) (promote mu) ;;
      chol_cov <- cholesky cov ;;
      r <- quaddist_chol delta chol_cov ;;
      let '(dist, logdet, ok) := r in
      if onedim
      then match dist with
           | d0 :: _ => Ok (T0 d0, logdet, ok)
           | [] => Raise IndexError
           end
      else Ok (T1 dist, logdet, ok)
  end.

(** [value.shape[-1]] *)
Definition shape_last {A : Type} (value : tensor A) : nat :=
  match value with
  | T0 _ => 0
  | T1 v => length v
  | T2 m => length (hd [] m)
  end.

Definition log_2pi : fl := flog (Fin (2 * PI)).

(** [MvNormal.logp(value, mu, cov)]; [check_bounds] is the configuration of
    the model in whose context the density is evaluated. *)
Definition MvNormal_logp (check_bounds : bool) (value mu : tensor fl)
    (cov : matrix fl) : result (tensor fl) :=
  r <- quaddist_parse value mu cov ;;
  let '(quaddist, logdet, ok) := r in
  let k := Fin (INR (shape_last value)) in
  let norm := fmul (fmul (Fin (- (1 / 2))) k) log_2pi in
  bound check_bounds true
        (tmap (fun qd => fsub (fsub norm (fmul (Fin (1 / 2)) qd)) logdet) quaddist)
        [T0 ok].



(** [Multinomial.logp(value, n, p)] for a vector of counts, a scalar number of
    trials and a vector of probabilities. *)
Definition Multinomial_logp (check_bounds : bool) (value : list Z) (n : Z)
    (p : list fl) : result (tensor fl) :=
  terms <- bvec (fun v pi => fadd (fneg (factln v)) (logpow pi v)) value p ;;
  bound check_bounds false
        (T0 (fadd (factln n) (fsum terms)))
        [ T0 (forallb (fun v => (0 <=? v)%Z) value);
          T0 (Z.eqb (fold_left Z.add value 0%Z) n);
          T0 (forallb (fun x => fle x (Fin 1)) p);
          T0 (feq (fsum p) (Fin 1));
          T0 (0 <=? n)%Z ].

(** The closed form of section 4.4 of the specification,
    [ln(n!) + sum(-ln(value_i!) + value_i * ln(p_i))], written out on its own. *)
Definition multinomial_formula (value : list Z) (n : Z) (p : list fl) : fl :=
  fadd (Fin (ln (INR (fact (Z.to_nat n)))))
       (fsum (map (fun vp =>
                     fadd (fneg (Fin (ln (INR (fact (Z.to_nat (fst vp)))))))
                          (fmul (Fin (IZR (fst vp))) (flog (snd vp))))
                  (combine value p))).

(** The conjunction of the five conditions that [Multinomial.logp] hands to
    [bound]. *)
Definition multinomial_conditions (value : list Z) (n : Z) (p : list fl) : bool :=
  forallb (fun v => (0 <=? v)%Z) value
  && Z.eqb (fold_left Z.add value 0%Z) n
  && forallb (fun x => fle x (Fin 1)) p
  && feq (fsum p) (Fin 1)
  && (0 <=? n)%Z.

(** A probability in (0, 1]. *)
Definition positive_probability (x : fl) : Prop :=
  exists r, x = Fin r /\ 0 < r <= 1.

(** [MatrixNormal.dist]: the parameters [mu, rowchol_cov, colchol_cov] handed
    to the density.  [size] tells whether a [size] keyword was given. *)
Definition MatrixNormal_dist (size : bool) (mu : tensor fl)
    (rowcov rowchol colcov colchol : option (matrix fl))
  : result (matrix fl * matrix fl * matrix fl) :=
  let cholesky := Cholesky on_error_raise in
  if size then Raise NotImplementedError
  else
    rowchol_cov <-
      match rowcov, rowchol with
      | Some c, None => cholesky c
      | None, Some l => Ok l
      | _, _ => Raise ValueError
      end ;;
    colchol_cov <-
      match colcov, colchol with
      | Some c, None => cholesky c
      | None, Some l => Ok l
      | _, _ => Raise ValueError
      end ;;
    mu' <- broadcast_to mu (length rowchol_cov) (length colchol_cov) ;;
    Ok (mu', rowchol_cov, colchol_cov).

(** [MatrixNormal.logp(value, mu, rowchol, colchol)] *)
Definition MatrixNormal_logp (value : tensor fl) (mu rowchol colchol : matrix fl)
  : result fl :=
  match value with
  | T2 v =>
      delta <- bmat fsub v mu ;;
      right_quaddist <- solve_lower rowchol delta ;;
      quaddist <- matrix_dot (transpose right_quaddist) right_quaddist ;;
      quaddist <- solve_lower colchol quaddist ;;
      quaddist <- solve_upper (transpose colchol) quaddist ;;
      let trquaddist := trace quaddist in
      let half_collogdet := fsum (map flog (diag colchol)) in
      let half_rowlogdet := fsum (map flog (diag rowchol)) in
      let m := Fin (INR (length rowchol)) in
      let n := Fin (INR (length colchol)) in
      let norm := fmul (fmul (fmul (Fin (- (1 / 2))) m) n) log_2pi in
      Ok (fsub (fsub (fsub norm (fmul (Fin (1 / 2)) trquaddist))
                     (fmul m half_collogdet))
               (fmul n half_rowlogdet))
  | _ => Raise ValueError
  end.


(** *** The other functions of the module *)

Section ExternalOps.

(** [matrix_inverse] and [gammaln] are ops of the tensor library; they are
    parameters here. *)
Variable matrix_inverse : matrix fl -> result (matrix fl).
Variable gammaln : fl -> fl.

(** [quaddist_matrix(cov, chol, tau, lower)] on matrices (the three
    [ndim != 2] checks cannot fail on them). *)
Definition quaddist_matrix (cov chol tau : option (matrix fl)) (lower : bool)
  : result (matrix fl) :=
  let chol :=
    match chol with
    | Some c => if lower then Some c else Some (transpose c)
    | None => None
    end in
  let not_none := fun o : option (matrix fl) =>
    match o with
    | Some _ => 1%nat
    | None => 0%nat
    end in
  (* len([i for i in [tau, cov, chol] if i is not None]) != 1 *)
  if negb (Nat.eqb (not_none tau + not_none cov + not_none chol) 1)
  then Raise ValueError
  else
    match cov, tau, chol with
    | Some c, _, _ => Ok c
    | None, Some t, _ => matrix_inverse t
    | None, None, Some l => matrix_dot l (transpose l)
    | None, None, None => Raise ValueError
    end.

(** [MvNormal.dist(mu, cov, tau, chol, lower)]: the parameters [mu, cov]. *)
Definition MvNormal_dist (mu : tensor fl) (cov tau chol : option (matrix fl))
    (lower : bool) : result (tensor fl * matrix fl) :=
  c <- quaddist_matrix cov chol tau lower ;;
  Ok (mu, c).

Definition quaddist_tau (delta chol_mat : matrix fl)
  : result (list fl * fl * bool) :=
  let diag := diag chol_mat in
  let ok := chol_ok chol_mat in
  let chol_tau := switch_scalar ok chol_mat (Fin 1) in
  delta_trans <- matrix_dot delta chol_tau ;;
  let quaddist := map (fun r => fsum (map (fun e => fmul e e) r)) delta_trans in
  let logdet := fneg (fsum (map flog diag)) in
  Ok (quaddist, logdet, ok).

(** [quaddist_parse(value, mu, cov, mat_type)] with its fourth argument. *)
Definition quaddist_parse_mat_type (value mu : tensor fl) (cov : matrix fl)
    (mat_type : string) : result (tensor fl * fl * bool) :=
  match value with
  | T0 _ => Raise ValueError
  | _ =>
      let onedim := Nat.eqb (ndim value) 1 in
      delta <- bmat fsub (promote value) (promote mu) ;;
      chol_cov <- cholesky cov ;;
      r <- (if negb (String.eqb mat_type "tau")
            then quaddist_chol delta chol_cov
            else quaddist_tau delta chol_cov) ;;
      let '(dist, logdet, ok) := r in
      if onedim
      then match dist with
           | d0 :: _ => Ok (T0 d0, logdet, ok)
           | [] => Raise IndexError
           end
      else Ok (T1 dist, logdet, ok)
  end.



(** Modelled from the spec: [logpow] of pymc3/distributions/dist_math.py with
    a float exponent, section 4.4: the term [(a - 1) * log(value)]. *)
Definition logpow_fl (x m : fl) : fl := fmul m (flog x).

(** [Dirichlet.logp(value, a)] for vectors. *)
Definition Dirichlet_logp (check_bounds : bool) (value a : list fl)
  : result (tensor fl) :=
  terms <- bvec (fun v ai => fsub (logpow_fl v (fsub ai (Fin 1))) (gammaln ai))
                value a ;;
  bound check_bounds false
        (T0 (fadd (fsum terms) (gammaln (fsum a))))
        [ T0 (forallb (fun v => fge v (Fin 0)) value);
          T0 (forallb (fun v => fle v (Fin 1)) value);
          T0 (forallb (fun ai => fgt ai (Fin 0)) a) ].

End ExternalOps.

(** [Multinomial.dist(n, p)]: the probabilities handed to the density,
    [p / at.sum(p, axis=-1, keepdims=True)]. *)
Definition Multinomial_dist_p (p : list fl) : list fl :=
  map (fun x => fdiv x (fsum p)) p.

(** [at.sigmoid] *)
Definition sigmoid (x : fl) : fl :=
  match x with
  | NaN => NaN
  | NInf => Fin 0
  | PInf => Fin 1
  | Fin a => Fin (1 / (1 + exp (- a)))
  end.

(** The probabilities that [_OrderedMultinomial.dist(eta, cutpoints, n)]
    derives from a scalar [eta] and a vector of cutpoints, before it hands
    them to [Multinomial.dist]. *)
Definition OrderedMultinomial_p (eta : fl) (cutpoints : list fl) : list fl :=
  let pa := map (fun c => sigmoid (fsub c eta)) cutpoints in
  let p_cum := [Fin 0] ++ pa ++ [Fin 1] in
  (* p_cum[..., 1:] - p_cum[..., :-1] *)
  map (fun ab => fsub (fst ab) (snd ab)) (combine (tl p_cum) (removelast p_cum)).

(** The logistic function on the reals, and the difference of a pair: what
    [sigmoid] and the subtraction of [OrderedMultinomial_p] compute on
    finite floats. *)
Definition sig (x : R) : R := 1 / (1 + exp (- x)).

Definition diff (ab : R * R) : R := fst ab + - snd ab.

(** [np.cumsum] *)
Fixpoint cumsum_from (acc : nat) (l : list nat) : list nat :=
  match l with
  | [] => []
  | x :: rest => (acc + x)%nat :: cumsum_from (acc + x) rest
  end.

(** [transform_params] of [_LKJCholeskyCov.__init__]:
    [np.arange(1, n + 1).cumsum() - 1], the positions of the diagonal in the
    packed Cholesky factor. *)
Definition diag_idxs (n : nat) : list nat :=
  map (fun c => (c - 1)%nat) (cumsum_from 0 (seq 1 n)).

(** [shape = n * (n + 1) // 2] *)
Definition packed_shape (n : nat) : nat := (n * (n + 1) / 2)%nat.

End Multivariate.

(* ------------------------------------------------------------------ *)
(** ** Python dictionaries with string keys

    Insertion ordered, one entry per key: assigning to an existing key keeps
    its position. *)

Module PyDict.

Definition dict (V : Type) : Type := list (string * V).

Fixpoint get {V : Type} (k : string) (d : dict V) : option V :=
  match d with
  | [] => None
  | (k', v) :: d' => if String.eqb k k' then Some v else get k d'
  end.

Definition mem {V : Type} (k : string) (d : dict V) : bool :=
  match get k d with
  | Some _ => true
  | None => false
  end.

(** [d[k] = v] *)
Fixpoint set {V : Type} (k : string) (v : V) (d : dict V) : dict V :=
  match d with
  | [] => [(k, v)]
  | (k', v') :: d' =>
      if String.eqb k k' then (k, v) :: d' else (k', v') :: set k v d'
  end.

(** the dictionary left by [d.pop(k)] *)
Fixpoint remove {V : Type} (k : string) (d : dict V) : dict V :=
  match d with
  | [] => []
  | (k', v') :: d' =>
      if String.eqb k k' then d' else (k', v') :: remove k d'
  end.

Definition keys {V : Type} (d : dict V) : list string := map fst d.
Definition values {V : Type} (d : dict V) : list V := map snd d.

End PyDict.

(* ------------------------------------------------------------------ *)
(** ** blocking: the array bijection *)

Module Blocking.

Import PyDict.

Section Arrays.

(** The type of array entries; the bijection only moves them. *)
Context {A : Type}.

(** A numpy array: its shape and its entries in C order. *)
Record ndarray : Type := mk_ndarray {
  shape : list nat;
  data : list A
}.

(** [np.prod(shape)] *)
Definition size_of (shp : list nat) : nat := fold_right Nat.mul 1%nat shp.

(** The invariant of every numpy array. *)
Definition wf_array (a : ndarray) : Prop :=
  length (data a) = size_of (shape a).

(** [PointType]: variable name to value. *)
Definition point : Type := dict ndarray.

Record RaveledVars : Type := mk_RaveledVars {
  rv_data : list A;
  point_map_info : list (string * list nat)
}.

(** Modelled from the spec: [DictToArrayBijection.map] of pymc3/blocking.py,
    which is not among the sources.  Section 3: a deterministic mapping from a
    name-to-value mapping to a single flat vector, recording enough shape
    metadata to invert exactly. *)
Definition DictToArrayBijection_map (var_dict : point) : RaveledVars :=
  {| rv_data := concat (map (fun kv => data (snd kv)) var_dict);
     point_map_info := map (fun kv => (fst kv, shape (snd kv))) var_dict |}.

Fixpoint rmap_loop (info : list (string * list nat)) (dat : list A) (res : point)
  : result point :=
  match info with
  | [] => Ok res
  | (name, shp) :: rest =>
      let chunk := firstn (size_of shp) dat in
      if Nat.eqb (length chunk) (size_of shp)
      then rmap_loop rest (skipn (size_of shp) dat)
                     (set name {| shape := shp; data := chunk |} res)
      else Raise ValueError
  end.

(** Modelled from the spec: [DictToArrayBijection.rmap] of pymc3/blocking.py.
    Section 4.7: unflatten back into a full point, leaving untouched variables
    copied from the start point unchanged.  A slice that cannot be reshaped
    is a ValueError. *)
Definition DictToArrayBijection_rmap (array : RaveledVars)
    (start_point : option point) : result point :=
  rmap_loop (point_map_info array) (rv_data array)
            (match start_point with
             | Some p => p
             | None => []
             end).

(** Modelled from the spec: [DictToArrayBijection.mapf] of pymc3/blocking.py:
    a function of points turned into a function of flat vectors. *)
Definition DictToArrayBijection_mapf {V : Type} (f : point -> result V)
    (start_point : point) : RaveledVars -> result V :=
  fun a => p <- DictToArrayBijection_rmap a (Some start_point) ;; f p.

End Arrays.

Arguments ndarray A : clear implicits.
Arguments RaveledVars A : clear implicits.
Arguments point A : clear implicits.

End Blocking.

(* ------------------------------------------------------------------ *)
(** ** step_methods/arraystep.py *)

Module ArrayStepPy.

Import PyDict Blocking.

(** *** Object creation

    [super().__new__(cls)] creates a fresh object.  Computations that create
    objects thread the number of objects created so far; an exception leaves
    that number as it was when it was raised. *)

Definition alloc (X : Type) : Type := nat -> result X * nat.

Definition aret {X : Type} (x : X) : alloc X := fun n => (Ok x, n).

Definition araise {X : Type} (e : exn) : alloc X := fun n => (Raise e, n).

Definition abind {X Y : Type} (m : alloc X) (k : X -> alloc Y) : alloc Y :=
  fun n =>
    match m n with
    | (Ok x, n') => k x n'
    | (Raise e, n') => (Raise e, n')
    end.

Definition lift {X : Type} (r : result X) : alloc X := fun n => (r, n).

(** The identity of the object created. *)
Definition object_new : alloc nat := fun n => (Ok n, S n).

Fixpoint amapM {X Y : Type} (f : X -> alloc Y) (l : list X) : alloc (list Y) :=
  match l with
  | [] => aret []
  | x :: l' =>
      abind (f x) (fun y =>
      abind (amapM f l') (fun ys =>
      aret (y :: ys)))
  end.

Section BlockedStep.

(** The model container (pymc3.model) is an external collaborator: its type,
    the lookup of the current model and the model's default variables are
    parameters. *)
Variable Model : Type.

(** Python values that reach [__new__] as arguments. *)
#[warnings="-register-all"]
Inductive pyval : Type :=
| PyNone
| PyBool (b : bool)
| PyVar (name : string)
| PyModel (m : Model)
| PyList (l : list pyval)
| PyTuple (l : list pyval)
| PyObj (repr : string).

Variable modelcontext : pyval -> result Model.
Variable value_vars : Model -> pyval.

(** Truth value of a Python object, as [not blocked] tests it. *)
Definition truthy (v : pyval) : bool :=
  match v with
  | PyNone => false
  | PyBool b => b
  | PyList l | PyTuple l => negb (Nat.eqb (length l) 0)
  | _ => true
  end.

(** [kwargs.get(k)] *)
Definition kwargs_get (k : string) (kwargs : dict pyval) : pyval :=
  match get k kwargs with
  | Some v => v
  | None => PyNone
  end.

(** The state a step object is left in by its [__init__]. *)
Variable State : Type.

(** A step-method class: its [default_blocked] attribute, if it has one, and
    its [__init__], applied to the positional and keyword arguments. *)
Record step_class : Type := mk_step_class {
  default_blocked : option pyval;
  init : list pyval -> dict pyval -> result State
}.

(** A step object: its identity, its state once [__init__] has run, and the
    [__newargs] kept for unpickling. *)
Record step_object : Type := mk_step_object {
  obj_id : nat;
  obj_state : option State;
  newargs : list pyval * dict pyval
}.

(** What [__new__] returns.  Modelled from the spec: [CompoundStep] of
    pymc3/step_methods/compound.py, which is not among the sources; section
    4.7: an ordered composite of sub-steps. *)
Inductive step_method : Type :=
| Blocked (step : step_object)
| CompoundStep (methods : list step_object).

(** The [vars] argument: first positional argument, keyword, or the model's
    variables; with the remaining positional and keyword arguments. *)
Definition select_vars (args : list pyval) (kwargs : dict pyval) (model : Model)
  : pyval * list pyval * dict pyval :=
  match mem "vars" kwargs, args with
  | false, a :: args' => (a, args', kwargs)
  | true, _ => (kwargs_get "vars" kwargs, args, remove "vars" kwargs)
  | false, [] => (value_vars model, args, kwargs)
  end.

(** [if not isinstance(vars, (tuple, list)): vars = [vars]] *)
Definition as_sequence (vars : pyval) : pyval :=
  match vars with
  | PyList _ | PyTuple _ => vars
  | v => PyList [v]
  end.

Definition items (v : pyval) : list pyval :=
  match v with
  | PyList l | PyTuple l => l
  | _ => []
  end.

(** The value of [blocked], looked up in the keyword arguments and then on
    the class, with the keyword arguments completed by it. *)
Definition resolve_blocked (cls : step_class) (kwargs : dict pyval)
  : pyval * dict pyval :=
  match kwargs_get "blocked" kwargs with
  | PyNone =>
      (* Try to look up default value from class *)
      let blocked :=
        match default_blocked cls with
        | Some b => b
        | None => PyBool true
        end in
      (blocked, set "blocked" blocked kwargs)
  | blocked => (blocked, kwargs)
  end.

(** The variables a call is given, before they are made a sequence. *)
Definition given_vars (args : list pyval) (kwargs : dict pyval) (model : Model)
  : pyval :=
  fst (fst (select_vars args kwargs model)).

(** One sub-step of the compound branch: a fresh object, initialised on
    [[var]] and the remaining arguments. *)
Definition new_single (cls : step_class) (args : list pyval)
    (kwargs : dict pyval) (var : pyval) : alloc step_object :=
  abind object_new (fun id =>
  abind (lift (init cls (PyList [var] :: args) kwargs)) (fun st =>
  aret {| obj_id := id;
          obj_state := Some st;
          newargs := (PyList [var] :: args, kwargs) |})).

(** What the compound branch builds for the variable [snd idvar] as object
    number [fst idvar]: an object of that identity, initialised by
    [__init__([var], *args, **kwargs)] and remembering those arguments. *)
Definition built_for (cls : step_class) (args : list pyval)
    (kwargs : dict pyval) (idvar : nat * pyval) (step : step_object) : Prop :=
  obj_id step = fst idvar
  /\ newargs step = (PyList [snd idvar] :: args, kwargs)
  /\ exists st, obj_state step = Some st
                /\ init cls (PyList [snd idvar] :: args) kwargs = Ok st.

(** [BlockedStep.__new__(cls, *args, **kwargs)] *)
Definition BlockedStep_new (cls : step_class) (args : list pyval)
    (kwargs : dict pyval) : alloc step_method :=
  let '(blocked, kwargs) := resolve_blocked cls kwargs in
  abind (lift (modelcontext (kwargs_get "model" kwargs))) (fun model =>
  let kwargs := set "model" (PyModel model) kwargs in
  let '(vars, args, kwargs) := select_vars args kwargs model in
  let vars := as_sequence vars in
  if Nat.eqb (length (items vars)) 0
  then araise ValueError
  else if negb (truthy blocked) && Nat.ltb 1 (length (items vars))
  then
    (* a separate sampler for each var, appended to a CompoundStep *)
    abind (amapM (new_single cls args kwargs) (items vars)) (fun steps =>
    aret (CompoundStep steps))
  else
    abind object_new (fun id =>
    aret (Blocked {| obj_id := id;
                     obj_state := None;
                     newargs := (vars :: args, kwargs) |}))).

End BlockedStep.

Arguments PyNone {Model}.
Arguments PyBool {Model} b.
Arguments PyVar {Model} name.
Arguments PyModel {Model} m.
Arguments PyList {Model} l.
Arguments PyTuple {Model} l.
Arguments PyObj {Model} repr.
Arguments mk_step_class {Model State}.
Arguments default_blocked {Model State}.
Arguments init {Model State}.
Arguments mk_step_object {Model State}.
Arguments obj_id {Model State}.
Arguments obj_state {Model State}.
Arguments newargs {Model State}.
Arguments Blocked {Model State}.
Arguments CompoundStep {Model State}.
Arguments kwargs_get {Model}.
Arguments truthy {Model}.
Arguments as_sequence {Model}.
Arguments items {Model}.
Arguments select_vars {Model}.
Arguments resolve_blocked {Model State}.
Arguments new_single {Model State}.
Arguments built_for {Model State}.
Arguments given_vars {Model} value_vars.
Arguments BlockedStep_new {Model} modelcontext value_vars {State}.

Section ArrayStep.

(** Array entries, values of the log-density functions, sampler statistics. *)
Context {A V Stats : Type}.

(** What [astep] returns in place of the new flat point: a bare array or a
    [RaveledVars]. *)
Inductive astep_array : Type :=
| BareArray (d : list A)
| Raveled (r : RaveledVars A).

(** The arguments [astep] is called with: the flat point, the wrapped
    functions and, with [allvars], the point. *)
Definition astep_args : Type :=
  (RaveledVars A * list (RaveledVars A -> result V) * option (point A))%type.

(** [astep], with the class attribute [generates_stats] that tells which of
    the two result shapes it has. *)
Inductive astep_method : Type :=
| astep_plain (f : astep_args -> result astep_array)
| astep_with_stats (f : astep_args -> result (astep_array * Stats)).

Definition generates_stats (m : astep_method) : bool :=
  match m with
  | astep_plain _ => false
  | astep_with_stats _ => true
  end.

Record ArrayStep : Type := mk_ArrayStep {
  vars : list string;                    (* the names [v.name] of [self.vars] *)
  fs : list (point A -> result V);
  allvars : bool;
  astep : astep_method
}.

(** [{name: point[name] for name in names}]; a missing name is a KeyError. *)
Fixpoint restrict (names : list string) (pt : point A) (acc : point A)
  : result (point A) :=
  match names with
  | [] => Ok acc
  | name :: rest =>
      match get name pt with
      | Some v => restrict rest pt (set name v acc)
      | None => Raise KeyError
      end
  end.

(** The array part of what [astep] returns. *)
Definition astep_output (m : astep_method) (args : astep_args)
  : result astep_array :=
  match m with
  | astep_plain f => f args
  | astep_with_stats f => r <- f args ;; Ok (fst r)
  end.

(** "We assume that the mapping has stayed the same": a [RaveledVars]
    returned by [astep] names none but the variables of the step method. *)
Definition keeps_mapping (self : ArrayStep) : Prop :=
  forall args r,
    astep_output (astep self) args = Ok (Raveled r) ->
    incl (map fst (point_map_info r)) (vars self).

(** [ArrayStep.step(self, point)] *)
Definition step (self : ArrayStep) (pt : point A)
  : result (point A * option Stats) :=
  let partial_funcs := map (fun x => DictToArrayBijection_mapf x pt) (fs self) in
  let extra := if allvars self then Some pt else None in
  var_dict <- restrict (vars self) pt [] ;;
  let apoint := DictToArrayBijection_map var_dict in
  step_res <-
    match astep self with
    | astep_plain f =>
        a <- f (apoint, partial_funcs, extra) ;; Ok (a, None)
    | astep_with_stats f =>
        r <- f (apoint, partial_funcs, extra) ;; Ok (fst r, Some (snd r))
    end ;;
  let apoint_new :=
    match fst step_res with
    | Raveled r => r
    | BareArray d =>
        (* We assume that the mapping has stayed the same *)
        {| rv_data := d; point_map_info := point_map_info apoint |}
    end in
  point_new <- DictToArrayBijection_rmap apoint_new (Some pt) ;;
  Ok (point_new, snd step_res).

End ArrayStep.

Arguments astep_array A : clear implicits.
Arguments astep_method A V Stats : clear implicits.
Arguments ArrayStep A V Stats : clear implicits.

(** A point with a vector [x] and a scalar [y], and a step method on [x]
    whose [astep] returns the flat vector it is given. *)
Definition example_point : point nat :=
  [("x"%string, mk_ndarray [2%nat] [1%nat; 2%nat]);
   ("y"%string, mk_ndarray [] [7%nat])].

Definition example_step : ArrayStep nat unit unit :=
  {| vars := ["x"%string];
     fs := [];
     allvars := false;
     astep := astep_plain (fun args => Ok (BareArray (rv_data (fst (fst args))))) |}.

(** *** metrop_select *)

(** [metrop_select(mr, q, q0)].  The call [uniform()] draws from the global
    numpy generator; the drawn number [u] is made an explicit argument. *)
Definition metrop_select {A : Type} (u : fl) (mr : fl) (q q0 : A) : A * bool :=
  if isfinite mr && flt (flog u) mr
  then (q, true)
  else (q0, false).

(** *** Competence *)

Inductive Competence : Type :=
| INCOMPATIBLE
| COMPATIBLE
| PREFERRED
| IDEAL.

Section CompetenceOf.

Context {Var : Type}.

(** [cls.competence], called with [has_grad] or, when that is a TypeError,
    without it. *)
Variable competence : Var -> option bool -> result Competence.

(** [BlockedStep._competence(cls, vars, have_grad)], both arguments already
    arrays of rank one. *)
Definition _competence (vars : list Var) (have_grad : list bool)
  : result (list Competence) :=
  mapM (fun p =>
          match competence (fst p) (Some (snd p)) with
          | Raise TypeError => competence (fst p) None
          | r => r
          end)
       (combine vars have_grad).

End CompetenceOf.

(** [BlockedStep.competence(var, has_grad)] *)
Definition BlockedStep_competence {Var : Type} (var : Var) (has_grad : option bool)
  : result Competence :=
  match has_grad with
  | Some _ => Ok INCOMPATIBLE
  | None => Raise TypeError
  end.

(** *** stop_tuning *)

(** [BlockedStep.stop_tuning(self)], on the attributes of the object. *)
Definition stop_tuning {Model : Type} (attrs : dict (pyval Model))
  : dict (pyval Model) :=
  if mem "tune" attrs then set "tune" (PyBool false) attrs else attrs.

(** *** ArrayStepShared *)

Section ArrayStepShared.

Context {A Stats : Type}.

(** [astep] of a shared step method sees the flat point and reads the shared
    variables. *)
Inductive shared_astep_method : Type :=
| shared_astep_plain (f : point A -> RaveledVars A -> result (astep_array A))
| shared_astep_with_stats
    (f : point A -> RaveledVars A -> result (astep_array A * Stats)).

Record ArrayStepShared : Type := mk_ArrayStepShared {
  shared_vars : list string;        (* the names of [self.vars] *)
  shared : list string;             (* the keys of [self.shared] *)
  shared_astep : shared_astep_method
}.

(** [for name, shared_var in self.shared.items():
        shared_var.set_value(point[name])]
    on the values held by the shared variables; a missing name is a KeyError
    that leaves the values set so far. *)
Fixpoint set_shared (names : list string) (pt store : point A)
  : result unit * point A :=
  match names with
  | [] => (Ok tt, store)
  | name :: rest =>
      match get name pt with
      | Some v => set_shared rest pt (set name v store)
      | None => (Raise KeyError, store)
      end
  end.

(** [ArrayStepShared.step(self, point)], with the values of the shared
    variables before and after. *)
Definition shared_step (self : ArrayStepShared) (pt store : point A)
  : result (point A * option Stats) * point A :=
  match set_shared (shared self) pt store with
  | (Raise e, store') => (Raise e, store')
  | (Ok _, store') =>
      (q <- restrict (shared_vars self) pt [] ;;
       let q := DictToArrayBijection_map q in
       step_res <-
         match shared_astep self with
         | shared_astep_plain f => a <- f store' q ;; Ok (a, None)
         | shared_astep_with_stats f =>
             r <- f store' q ;; Ok (fst r, Some (snd r))
         end ;;
       let apoint :=
         match fst step_res with
         | Raveled r => r
         | BareArray d =>
             {| rv_data := d; point_map_info := point_map_info q |}
         end in
       new_point <- DictToArrayBijection_rmap apoint (Some pt) ;;
       Ok (new_point, snd step_res),
       store')
  end.

End ArrayStepShared.

Arguments shared_astep_method A Stats : clear implicits.
Arguments ArrayStepShared A Stats : clear implicits.

(** *** PopulationArrayStepShared *)

Section Population.

Context {P : Type}.

(** The population fields of the step object. *)
Record population_link : Type := mk_population_link {
  population : option (list P);
  this_chain : option Z;
  other_chains : option (list nat)
}.

(** [PopulationArrayStepShared.__init__] leaves the three fields at None. *)
Definition unlinked : population_link :=
  {| population := None; this_chain := None; other_chains := None |}.

(** [link_population(self, population, chain_index)]: the fields afterwards
    and the outcome of the call. *)
Definition link_population (self : population_link) (pop : list P)
    (chain_index : Z) : population_link * result unit :=
  let others :=
    filter (fun c => negb (Z.eqb (Z.of_nat c) chain_index))
           (seq 0 (length pop)) in
  let self' := {| population := Some pop;
                  this_chain := Some chain_index;
                  other_chains := Some others |} in
  if negb (Nat.ltb 1 (length others))
  then (self', Raise ValueError)
  else (self', Ok tt).

End Population.

End ArrayStepPy.

(* ------------------------------------------------------------------ *)
(** * Properties *)

(** ** Comparisons *)

Lemma Rltb_true (a b : R) : Rltb a b = true <-> a < b.
Proof. unfold Rltb; destruct (Rlt_dec a b); split; intros; try easy. Qed.

Lemma Rleb_true (a b : R) : Rleb a b = true <-> a <= b.
Proof. unfold Rleb; destruct (Rle_dec a b); split; intros; try easy. Qed.

Lemma Reqb_true (a b : R) : Reqb a b = true <-> a = b.
Proof. unfold Reqb; destruct (Req_dec_T a b); split; intros; try easy. Qed.

Lemma Rltb_false (a b : R) : Rltb a b = false <-> ~ a < b.
Proof. unfold Rltb; destruct (Rlt_dec a b); split; intros; try easy. Qed.

Lemma Rleb_false (a b : R) : Rleb a b = false <-> ~ a <= b.
Proof. unfold Rleb; destruct (Rle_dec a b); split; intros; try easy. Qed.

Lemma Reqb_false (a b : R) : Reqb a b = false <-> a <> b.
Proof. unfold Reqb; destruct (Req_dec_T a b); split; intros; try easy. Qed.

(** Decide the comparisons of real constants that a goal contains. *)
Ltac real_tests :=
  repeat match goal with
    | |- context [Rltb ?a ?b] =>
        first [ replace (Rltb a b) with true by (symmetry; apply Rltb_true; lra)
              | replace (Rltb a b) with false by (symmetry; apply Rltb_false; lra) ]
    | |- context [Rleb ?a ?b] =>
        first [ replace (Rleb a b) with true by (symmetry; apply Rleb_true; lra)
              | replace (Rleb a b) with false by (symmetry; apply Rleb_false; lra) ]
    | |- context [Reqb ?a ?b] =>
        first [ replace (Reqb a b) with true by (symmetry; apply Reqb_true; lra)
              | replace (Reqb a b) with false by (symmetry; apply Reqb_false; lra) ]
    end.

Lemma isfinite_finite (x : fl) : isfinite x = true <-> finite x.
Proof.
  unfold finite; destruct x; simpl; split; intros H;
    try discriminate; try (destruct H as [r H]; discriminate); eauto.
Qed.

Lemma flt_lt_fl (x y : fl) : flt x y = true <-> lt_fl x y.
Proof.
  destruct x, y; simpl; try (split; intros; easy).
  apply Rltb_true.
Qed.

(** ** The Metropolis accept/reject rule *)

Section MetropSelect.

Import ArrayStepPy.
Context {A : Type}.

Lemma metrop_select_accept_iff (u mr : fl) (q q0 : A) :
  metrop_select u mr q q0 = (q, true) <-> finite mr /\ lt_fl (flog u) mr.
Proof.
  unfold metrop_select.
  rewrite <- isfinite_finite, <- flt_lt_fl.
  destruct (isfinite mr); destruct (flt (flog u) mr); simpl;
    split; intros H; try reflexivity; try discriminate; try (split; reflexivity);
    destruct H; discriminate.
Qed.

Lemma metrop_select_reject_iff (u mr : fl) (q q0 : A) :
  metrop_select u mr q q0 = (q0, false) <-> ~ (finite mr /\ lt_fl (flog u) mr).
Proof.
  split.
  - intros H Hacc.
    apply (proj2 (metrop_select_accept_iff u mr q q0)) in Hacc.
    rewrite Hacc in H; inversion H.
  - intros H. unfold metrop_select.
    destruct (isfinite mr && flt (flog u) mr) eqn:E; [|reflexivity].
    exfalso; apply H.
    apply (proj1 (metrop_select_accept_iff u mr q q0)).
    unfold metrop_select; rewrite E; reflexivity.
Qed.

End MetropSelect.

(** C4.  [metrop_select(mr, q, q0)] returns [(q, True)] exactly when [mr] is
    finite and the logarithm of the uniform draw is below [mr], and
    [(q0, False)] exactly when not; a NaN and a negative-infinite [mr] give
    [(q0, False)] for every draw. *)
Theorem metrop_select_spec (A : Type) (u mr : fl) (q q0 : A) :
  (ArrayStepPy.metrop_select u mr q q0 = (q, true)
     <-> finite mr /\ lt_fl (flog u) mr)
  /\ (ArrayStepPy.metrop_select u mr q q0 = (q0, false)
     <-> ~ (finite mr /\ lt_fl (flog u) mr))
  /\ ArrayStepPy.metrop_select u NaN q q0 = (q0, false)
  /\ ArrayStepPy.metrop_select u NInf q q0 = (q0, false).
Proof.
  split; [apply metrop_select_accept_iff|].
  split; [apply metrop_select_reject_iff|].
  split; reflexivity.
Qed.

(** C3, as the code has it.  A positive-infinite [mr] is not finite, so
    [metrop_select] keeps the current sample for every draw. *)
Theorem metrop_select_pos_inf_rejects (A : Type) (u : fl) (q q0 : A) :
  ArrayStepPy.metrop_select u PInf q q0 = (q0, false).
Proof. reflexivity. Qed.

(** C3 fails as stated: with [mr = +inf], the proposal [1] and the current
    value [0], the result is [(0, False)] and not [(1, True)]. *)
Lemma metrop_select_pos_inf_counterexample :
  ArrayStepPy.metrop_select (Fin (1 / 2)) PInf 1%nat 0%nat = (0%nat, false)
  /\ ArrayStepPy.metrop_select (Fin (1 / 2)) PInf 1%nat 0%nat <> (1%nat, true).
Proof. split; [reflexivity | discriminate]. Qed.

(** ** Broadcasting against a scalar *)

Lemma mapM_pure {X Y : Type} (g : X -> Y) (l : list X) :
  mapM (fun x => Ok (g x)) l = Ok (map g l).
Proof.
  induction l as [|x l IH]; simpl; [reflexivity|].
  rewrite IH; reflexivity.
Qed.

Lemma bvec_scalar_l {X Y Z : Type} (f : X -> Y -> Z) (c : X) (ys : list Y) :
  bvec f [c] ys = Ok (map (f c) ys).
Proof.
  unfold bvec, bzip.
  destruct ys as [|y [|y' ys]]; simpl; try reflexivity.
  rewrite (mapM_pure (f c)); reflexivity.
Qed.

Lemma mapM_ext {X Y : Type} (f g : X -> result Y) (l : list X) :
  (forall x, f x = g x) -> mapM f l = mapM g l.
Proof.
  intros H; induction l as [|x l IH]; simpl; [reflexivity|].
  rewrite H, IH; reflexivity.
Qed.

Lemma bmat_scalar_l {X Y Z : Type} (f : X -> Y -> Z) (c : X) (m : matrix Y) :
  bmat f [[c]] m = Ok (map (map (f c)) m).
Proof.
  unfold bmat, bzip.
  assert (E : mapM (bvec f [c]) m = Ok (map (map (f c)) m)).
  { rewrite (mapM_ext _ (fun ys => Ok (map (f c) ys))) by apply bvec_scalar_l.
    apply mapM_pure. }
  destruct m as [|r [|r' m]]; simpl; try reflexivity.
  - rewrite bvec_scalar_l; reflexivity.
  - simpl in E. exact E.
Qed.

Lemma tmap2_scalar_l {X Y Z : Type} (f : X -> Y -> Z) (c : X) (t : tensor Y) :
  tmap2 f (T0 c) t = Ok (tmap (f c) t).
Proof.
  unfold tmap2; simpl promote; rewrite bmat_scalar_l.
  destruct t as [x|v|m]; reflexivity.
Qed.

Lemma tmap_id {X : Type} (t : tensor X) : tmap (fun x => x) t = t.
Proof.
  destruct t as [x|v|m]; simpl; try reflexivity.
  - rewrite map_id; reflexivity.
  - f_equal. induction m as [|r m IH]; simpl; [reflexivity|].
    rewrite map_id, IH; reflexivity.
Qed.

(** ** The bounding combinator *)

Section Bound.

Import DistMath.

Lemma switch_neg_inf_scalar (b : bool) (x : tensor fl) :
  switch_neg_inf (T0 b) x = Ok (if b then x else tmap (fun _ => NInf) x).
Proof.
  unfold switch_neg_inf; rewrite tmap2_scalar_l.
  destruct b; [rewrite tmap_id|]; reflexivity.
Qed.

Lemma bound_scalar_condition (x : tensor fl) (b : bool) :
  bound true true x [T0 b] = Ok (if b then x else tmap (fun _ => NInf) x).
Proof.
  unfold bound, alltrue_elemwise; simpl.
  unfold tmap2; simpl. apply switch_neg_inf_scalar.
Qed.

Lemma bound_unchecked (bc : bool) (x : tensor fl) (conds : list (tensor bool)) :
  bound false bc x conds = Ok x.
Proof. reflexivity. Qed.

End Bound.

(** C6.  With bounds checking active: [bound(x, True)] is [x];
    [bound(x, False)] is negative infinity in every entry of [x]'s shape; and
    with [broadcast_conditions=False], [bound(x, cond1, cond2)] is [x] when
    both conditions are entirely true and otherwise negative infinity in every
    entry, never a partial mask. *)
Theorem bound_spec (x : tensor fl) :
  DistMath.bound true true x [T0 true] = Ok x
  /\ DistMath.bound true true x [T0 false] = Ok (tmap (fun _ => NInf) x)
  /\ forall c1 c2 : tensor bool,
       DistMath.bound true false x [c1; c2]
       = Ok (if tall c1 && tall c2 then x else tmap (fun _ => NInf) x).
Proof.
  split; [apply (bound_scalar_condition x true)|].
  split; [apply (bound_scalar_condition x false)|].
  intros c1 c2. unfold DistMath.bound, DistMath.alltrue_scalar; simpl.
  rewrite andb_true_r. apply switch_neg_inf_scalar.
Qed.

(** The elementwise case of [test_bound]: one false entry masks one entry. *)
Lemma test_bound_partial_mask :
  DistMath.bound true true (T1 [Fin 1; Fin 1; Fin 1]) [T1 [true; false; true]]
  = Ok (T1 [Fin 1; NInf; Fin 1]).
Proof. reflexivity. Qed.

(** ** Sums of finite numbers *)

Lemma fsum_finite_from (l : list fl) (acc : fl) :
  finite acc -> Forall finite l -> finite (fold_left fadd l acc).
Proof.
  revert acc; induction l as [|x l IH]; intros acc Hacc Hl; simpl; [exact Hacc|].
  inversion Hl as [|? ? Hx Hl']; subst.
  apply IH; [|exact Hl'].
  destruct Hacc as [a ->], Hx as [b ->]; simpl; eexists; reflexivity.
Qed.

Lemma fsum_finite (l : list fl) : Forall finite l -> finite (fsum l).
Proof. apply fsum_finite_from; eexists; reflexivity. Qed.

(** ** Shapes of the linear-algebra results *)

Section Shapes.

Import Aesara.

Lemma is_square_shape {X : Type} (m : matrix X) :
  is_square m = true <-> has_shape (length m) (length m) m.
Proof.
  unfold is_square, has_shape. rewrite forallb_forall, Forall_forall.
  split.
  - intros H; split; [reflexivity|]. intros r Hr. apply Nat.eqb_eq, H, Hr.
  - intros [_ H] r Hr. apply Nat.eqb_eq, H, Hr.
Qed.




Lemma map_const_shape {X Y : Type} (y : Y) (r c : nat) (m : matrix X) :
  has_shape r c m -> has_shape r c (map (map (fun _ => y)) m).
Proof.
  intros [Hr Hc]; split; [rewrite length_map; exact Hr|].
  apply Forall_map. revert Hc; apply Forall_impl; intros row H.
  rewrite length_map; exact H.
Qed.


Lemma diag_from_Forall {X : Type} (P : X -> Prop) (i : nat) (m : matrix X) :
  Forall (Forall P) m -> Forall P (diag_from i m).
Proof.
  revert i; induction m as [|r m IH]; intros i H; simpl; [constructor|].
  inversion H as [|? ? Hr Hm]; subst.
  destruct (nth_error r i) as [x|] eqn:E; [|constructor].
  constructor; [|apply IH, Hm].
  apply nth_error_In in E. rewrite Forall_forall in Hr; apply Hr, E.
Qed.

Lemma transpose_length (m : matrix fl) :
  length (transpose m) = length (hd [] m).
Proof. unfold transpose; rewrite length_map, length_seq; reflexivity. Qed.

Lemma transpose_rows (m : matrix fl) :
  Forall (fun r => length r = length m) (transpose m).
Proof.
  unfold transpose. apply Forall_map, Forall_forall; intros j _.
  apply length_map.
Qed.

Lemma vadd_length (x y : list fl) (n : nat) :
  length x = n -> length y = n -> length (vadd x y) = n.
Proof.
  intros Hx Hy. unfold vadd. rewrite length_map, length_combine. lia.
Qed.

Lemma lincomb_length (l : list fl) (xs : matrix fl) (n : nat) :
  Forall (fun r => length r = n) xs -> length (lincomb l xs n) = n.
Proof.
  unfold lincomb. intros H.
  assert (G : forall (ps : list (fl * list fl)) acc,
             Forall (fun p => length (snd p) = n) ps -> length acc = n ->
             length (fold_left
                       (fun acc p => vadd acc (map (fmul (fst p)) (snd p)))
                       ps acc) = n).
  { induction ps as [|p ps IH]; intros acc Hps Hacc; simpl; [exact Hacc|].
    inversion Hps as [|? ? Hp Hps']. apply IH; [exact Hps'|].
    apply vadd_length; [exact Hacc|]. rewrite length_map; exact Hp. }
  apply G; [|apply repeat_length].
  apply Forall_forall; intros [c r] Hin; simpl.
  apply in_combine_r in Hin. rewrite Forall_forall in H; apply H, Hin.
Qed.

Lemma forward_subst_shape (n : nat) (rows : list (list fl * list fl))
    (solved : matrix fl) :
  Forall (fun p => length (snd p) = n) rows ->
  Forall (fun r => length r = n) solved ->
  has_shape (length solved + length rows) n (forward_subst rows solved).
Proof.
  revert solved; induction rows as [|[l b] rows IH]; intros solved Hrows Hs; simpl.
  - split; [lia | exact Hs].
  - inversion Hrows as [|? ? Hb Hrest]; simpl in Hb.
    match goal with
    | |- has_shape _ _ (forward_subst rows (solved ++ [?x])) =>
        assert (Hx : length x = n)
    end.
    { rewrite length_map. unfold vsub. rewrite length_map, length_combine, Hb.
      rewrite lincomb_length by exact Hs. lia. }
    match goal with
    | |- has_shape _ _ (forward_subst rows ?s') =>
        specialize (IH s' Hrest)
    end.
    rewrite length_app in IH; simpl in IH.
    replace (length solved + S (length rows))%nat
      with (length solved + 1 + length rows)%nat by lia.
    apply IH. apply Forall_app; split; [exact Hs|].
    constructor; [exact Hx | constructor].
Qed.

(** A triangular solve with finite entries, a square matrix without a zero
    on its diagonal and a right-hand side of as many rows does not raise. *)
Lemma solve_lower_ok (L B : matrix fl) (m : nat) :
  all_finite L = true -> all_finite B = true ->
  is_square L = true ->
  has_shape (length L) m B ->
  Forall (fun d => feq d (Fin 0) = false) (diag L) ->
  exists X, solve_lower L B = Ok X /\ has_shape (length L) m X.
Proof.
  intros HfL HfB Hsq [HB Hm] Hd. unfold solve_lower.
  rewrite HfL, HfB, Hsq, HB, Nat.eqb_refl; simpl.
  replace (existsb (fun d => feq d (Fin 0)) (diag L)) with false.
  - eexists; split; [reflexivity|].
    pose proof (forward_subst_shape m (combine L B) []) as H.
    simpl in H. rewrite length_combine, HB, Nat.min_id in H.
    apply H; [|constructor].
    apply Forall_forall; intros [l b] Hin; simpl.
    apply in_combine_r in Hin. rewrite Forall_forall in Hm; apply Hm, Hin.
  - symmetry. induction Hd as [|d ds Hd0 _ IH]; simpl; [reflexivity|].
    rewrite Hd0, IH; reflexivity.
Qed.

End Shapes.

(** ** Finite entries

    What the finiteness checks of scipy accept, and that the factorisation
    and the transposition keep entries finite. *)

Section Finiteness.

Import Aesara.

Lemma all_finite_Forall (m : matrix fl) :
  all_finite m = true <-> Forall (Forall finite) m.
Proof.
  unfold all_finite. rewrite forallb_forall, Forall_forall.
  split; intros H r Hr.
  - apply Forall_forall; intros x Hx. apply isfinite_finite.
    specialize (H r Hr). rewrite forallb_forall in H. apply H, Hx.
  - apply forallb_forall; intros x Hx. apply isfinite_finite.
    specialize (H r Hr). rewrite Forall_forall in H. apply H, Hx.
Qed.


Lemma nth_finite (l : list fl) (i : nat) :
  Forall finite l -> (i < length l)%nat -> finite (nth i l NaN).
Proof.
  intros H Hi. rewrite Forall_forall in H. apply H, nth_In, Hi.
Qed.



(** A finished row of the factor: finite entries, the last of which, the
    pivot, is not zero. *)
Local Abbreviation pivot_row :=
  (fun lj : list fl =>
     Forall finite lj /\ exists d, last lj NaN = Fin d /\ d <> 0).







Lemma transpose_finite (c : nat) (m : matrix fl) :
  Forall (fun r => length r = c) m ->
  all_finite m = true -> all_finite (transpose m) = true.
Proof.
  intros Hc Hfin. apply all_finite_Forall. apply all_finite_Forall in Hfin.
  unfold transpose. apply Forall_map, Forall_forall. intros j Hj.
  apply in_seq in Hj. apply Forall_map, Forall_forall. intros r Hr.
  rewrite Forall_forall in Hc, Hfin.
  apply nth_finite; [apply Hfin, Hr|].
  rewrite (Hc r Hr).
  destruct m as [|r0 m]; [destruct Hr|].
  simpl in Hj. rewrite (Hc r0 (or_introl eq_refl)) in Hj. lia.
Qed.

Lemma ones_finite {X : Type} (x : matrix X) :
  all_finite (map (map (fun _ => Fin 1)) x) = true.
Proof.
  apply all_finite_Forall. apply Forall_map, Forall_forall. intros r _.
  apply Forall_map, Forall_forall. intros e _. eexists; reflexivity.
Qed.




End Finiteness.

(** ** The quadratic-form utility and MvNormal *)

Section QuadDist.

Import Aesara DistMath Multivariate.

Lemma map_map_id {X : Type} (m : matrix X) : map (map (fun e => e)) m = m.
Proof.
  induction m as [|r m IH]; simpl; [reflexivity|].
  rewrite map_id, IH; reflexivity.
Qed.


(** The validity flag is true exactly when every diagonal entry of the factor
    is strictly positive. *)
Lemma chol_ok_iff (chol_mat : matrix fl) :
  chol_ok chol_mat = true <-> Forall (fun d => lt_fl (Fin 0) d) (diag chol_mat).
Proof.
  unfold chol_ok, fgt. rewrite forallb_forall, Forall_forall.
  split; intros H d Hd; apply flt_lt_fl, H, Hd.
Qed.

(** With a false flag the matrix handed to the solve is all ones. *)
Lemma chol_for_solve_not_ok (chol_mat : matrix fl) :
  chol_ok chol_mat = false ->
  chol_for_solve chol_mat = map (map (fun _ => Fin 1)) chol_mat.
Proof. unfold chol_for_solve, switch_scalar; intros E; rewrite E; reflexivity. Qed.

Lemma chol_for_solve_ok (chol_mat : matrix fl) :
  chol_ok chol_mat = true -> chol_for_solve chol_mat = chol_mat.
Proof.
  unfold chol_for_solve, switch_scalar; intros E; rewrite E. apply map_map_id.
Qed.

Lemma chol_for_solve_shape (r c : nat) (chol_mat : matrix fl) :
  has_shape r c chol_mat -> has_shape r c (chol_for_solve chol_mat).
Proof.
  destruct (chol_ok chol_mat) eqn:E.
  - rewrite chol_for_solve_ok by exact E; auto.
  - rewrite chol_for_solve_not_ok by exact E. apply map_const_shape.
Qed.

Lemma positive_not_zero (d : fl) : fgt d (Fin 0) = true -> feq d (Fin 0) = false.
Proof.
  unfold fgt; destruct d as [| | |b]; simpl; try discriminate; try reflexivity.
  intros H; apply Rltb_true in H. apply Reqb_false; lra.
Qed.

(** The matrix handed to the solve never has a zero on its diagonal. *)
Lemma chol_for_solve_regular (chol_mat : matrix fl) :
  Forall (fun d => feq d (Fin 0) = false) (diag (chol_for_solve chol_mat)).
Proof.
  destruct (chol_ok chol_mat) eqn:E.
  - rewrite chol_for_solve_ok by exact E.
    unfold chol_ok in E. rewrite forallb_forall in E.
    apply Forall_forall; intros d Hd. apply positive_not_zero, E, Hd.
  - rewrite chol_for_solve_not_ok by exact E.
    apply (Forall_impl _ (P := fun d => d = Fin 1)).
    + intros d ->; simpl. apply Reqb_false; lra.
    + apply diag_from_Forall. apply Forall_map, Forall_forall; intros r _.
      apply Forall_map, Forall_forall; intros e _; reflexivity.
Qed.

Lemma hd_length_shape {X : Type} (r c : nat) (m : matrix X) :
  has_shape r c m -> (1 <= r)%nat -> length (hd [] m) = c.
Proof.
  intros [Hr Hc] Hpos. destruct m as [|row m]; simpl in *; [lia|].
  inversion Hc; assumption.
Qed.

(** The matrix handed to the solve has finite entries when the factor is
    finite or flagged. *)
Lemma chol_for_solve_finite (chol_mat : matrix fl) :
  (chol_ok chol_mat = true -> all_finite chol_mat = true) ->
  all_finite (chol_for_solve chol_mat) = true.
Proof.
  intros H. destruct (chol_ok chol_mat) eqn:E.
  - rewrite chol_for_solve_ok by exact E. apply H; reflexivity.
  - rewrite chol_for_solve_not_ok by exact E. apply ones_finite.
Qed.

(** [quaddist_chol] does not raise on a square factor that is finite or
    flagged and finite residuals of as many columns; it returns one quadratic
    form per residual row and the flag. *)
Lemma quaddist_chol_total (delta chol_mat : matrix fl) (m n : nat) :
  has_shape n n chol_mat -> has_shape m n delta ->
  (1 <= m)%nat -> (1 <= n)%nat ->
  (chol_ok chol_mat = true -> all_finite chol_mat = true) ->
  all_finite delta = true ->
  exists quaddist logdet,
    quaddist_chol delta chol_mat = Ok (quaddist, logdet, chol_ok chol_mat)
    /\ length quaddist = m.
Proof.
  intros Hc Hd Hm Hn Hfc Hfd. unfold quaddist_chol.
  pose proof (chol_for_solve_shape _ _ _ Hc) as Hs.
  assert (Hlen : length (chol_for_solve chol_mat) = n) by apply Hs.
  assert (Hsq : is_square (chol_for_solve chol_mat) = true).
  { apply is_square_shape. rewrite Hlen; exact Hs. }
  assert (HB : has_shape (length (chol_for_solve chol_mat)) m (transpose delta)).
  { split.
    - rewrite transpose_length, Hlen. exact (hd_length_shape _ _ _ Hd Hm).
    - replace m with (length delta) by apply Hd. apply transpose_rows. }
  destruct (solve_lower_ok _ _ m (chol_for_solve_finite chol_mat Hfc)
              (transpose_finite n delta (proj2 Hd) Hfd)
              Hsq HB (chol_for_solve_regular chol_mat))
    as [X [EX HX]].
  rewrite EX; simpl. do 2 eexists; split; [reflexivity|].
  rewrite length_map, transpose_length.
  rewrite Hlen in HX. exact (hd_length_shape _ _ _ HX Hn).
Qed.






End QuadDist.

Section MvNormal.

Import Aesara DistMath Multivariate.


End MvNormal.






(** C8, as the code has it.  The flag is true exactly when every diagonal
    entry of the factor is strictly positive; with a false flag the matrix
    used in the solve is the factor with every entry replaced by 1; and with
    that matrix and finite residuals the solve does not fail: the utility
    returns its quadratic forms, one per residual row, and the false flag. *)
Theorem quaddist_chol_flag_and_solve_matrix :
  (forall chol_mat,
      Multivariate.chol_ok chol_mat = true
      <-> Forall (fun d => lt_fl (Fin 0) d) (Aesara.diag chol_mat))
  /\ (forall chol_mat,
      Multivariate.chol_ok chol_mat = false ->
      Multivariate.chol_for_solve chol_mat = map (map (fun _ => Fin 1)) chol_mat)
  /\ (forall delta chol_mat m n,
      has_shape n n chol_mat -> has_shape m n delta ->
      (1 <= m)%nat -> (1 <= n)%nat ->
      Aesara.all_finite delta = true ->
      Multivariate.chol_ok chol_mat = false ->
      exists quaddist logdet,
        Multivariate.quaddist_chol delta chol_mat = Ok (quaddist, logdet, false)
        /\ length quaddist = m).
Proof.
  split; [exact chol_ok_iff|].
  split; [exact chol_for_solve_not_ok|].
  intros delta chol_mat m n Hc Hd Hm Hn Hfd Hok.
  destruct (quaddist_chol_total delta chol_mat m n Hc Hd Hm Hn) as [q [ld [E Hq]]].
  - rewrite Hok; discriminate.
  - exact Hfd.
  - exists q, ld. rewrite <- Hok. split; assumption.
Qed.

(** C8 fails as stated: for the covariance [[-1, 0], [0, 1]] the factor is the
    2x2 NaN matrix and the flag is false; the solve uses [[1, 1], [1, 1]],
    not the factor with only its diagonal replaced by 1, which is
    [[1, nan], [nan, 1]] and on which the solve would raise a ValueError. *)
Lemma quaddist_chol_diagonal_counterexample :
  exists chol,
    Multivariate.cholesky [[Fin (-1); Fin 0]; [Fin 0; Fin 1]] = Ok chol
    /\ Multivariate.chol_ok chol = false
    /\ Multivariate.chol_for_solve chol = [[Fin 1; Fin 1]; [Fin 1; Fin 1]]
    /\ diag_replaced_by (Fin 1) chol = [[Fin 1; NaN]; [NaN; Fin 1]]
    /\ Multivariate.chol_for_solve chol <> diag_replaced_by (Fin 1) chol
    /\ Aesara.solve_lower (diag_replaced_by (Fin 1) chol) [[Fin 0]; [Fin 0]]
       = Raise ValueError.
Proof.
  exists [[NaN; NaN]; [NaN; NaN]].
  split.
  { unfold Multivariate.cholesky, Aesara.Cholesky, Aesara.scipy_cholesky.
    simpl. unfold Aesara.chol_row; simpl. real_tests. reflexivity. }
  split; [reflexivity|].
  split; [reflexivity|].
  split; [reflexivity|].
  split; [discriminate | reflexivity].
Qed.

(** ** Multinomial *)

Section Multinomial.

Import DistMath Multivariate.

Lemma factln_nonneg (n : Z) :
  (0 <= n)%Z -> factln n = Fin (ln (INR (fact (Z.to_nat n)))).
Proof. intros H; unfold factln. apply Z.leb_le in H; rewrite H; reflexivity. Qed.

Lemma Multinomial_logp_unfold (value : list Z) (n : Z) (p : list fl) :
  length value = length p ->
  Multinomial_logp true value n p
  = Ok (T0 (if multinomial_conditions value n p
            then fadd (factln n)
                      (fsum (map (fun vp => fadd (fneg (factln (fst vp)))
                                                 (logpow (snd vp) (fst vp)))
                                 (combine value p)))
            else NInf)).
Proof.
  intros Hlen. unfold Multinomial_logp, bvec, bzip.
  rewrite Hlen, Nat.eqb_refl.
  rewrite (mapM_pure (fun vp : Z * fl =>
                        fadd (fneg (factln (fst vp))) (logpow (snd vp) (fst vp)))).
  simpl bind. unfold bound; simpl negb; cbv iota.
  rewrite switch_neg_inf_scalar.
  unfold alltrue_scalar, multinomial_conditions; simpl.
  destruct (forallb (fun v => (0 <=? v)%Z) value),
           (Z.eqb (fold_left Z.add value 0%Z) n),
           (forallb (fun x => fle x (Fin 1)) p),
           (feq (fsum p) (Fin 1)),
           (0 <=? n)%Z; reflexivity.
Qed.

(** On non-negative counts and trials the expression of the code is the
    closed form. *)
Lemma multinomial_expr_formula (value : list Z) (n : Z) (p : list fl) :
  (0 <= n)%Z -> Forall (fun v => (0 <= v)%Z) value ->
  fadd (factln n)
       (fsum (map (fun vp => fadd (fneg (factln (fst vp)))
                                  (logpow (snd vp) (fst vp)))
                  (combine value p)))
  = multinomial_formula value n p.
Proof.
  intros Hn Hv. unfold multinomial_formula.
  rewrite (factln_nonneg n Hn). do 2 f_equal.
  apply map_ext_in. intros [v x] Hin; simpl.
  apply in_combine_l in Hin. rewrite Forall_forall in Hv.
  rewrite (factln_nonneg v (Hv v Hin)). reflexivity.
Qed.

Lemma multinomial_conditions_true (value : list Z) (n : Z) (p : list fl) :
  multinomial_conditions value n p = true
  <-> Forall (fun v => (0 <= v)%Z) value
      /\ fold_left Z.add value 0%Z = n
      /\ Forall (fun x => fle x (Fin 1) = true) p
      /\ feq (fsum p) (Fin 1) = true
      /\ (0 <= n)%Z.
Proof.
  unfold multinomial_conditions.
  rewrite !andb_true_iff, !forallb_forall, !Forall_forall, Z.eqb_eq, Z.leb_le.
  split.
  - intros [[[[H1 H2] H3] H4] H5]. repeat split; try assumption.
    intros v Hv; apply Z.leb_le, H1, Hv.
  - intros [H1 [H2 [H3 [H4 H5]]]]. repeat split; try assumption.
    intros v Hv; apply Z.leb_le, H1, Hv.
Qed.

Lemma positive_probability_le_1 (x : fl) :
  positive_probability x -> fle x (Fin 1) = true.
Proof.
  intros [r [-> [_ Hr]]]. unfold fle; simpl.
  destruct (Rlt_dec r 1) as [Hlt|Hge].
  - replace (Rltb r 1) with true by (symmetry; apply Rltb_true; exact Hlt).
    reflexivity.
  - replace (Reqb r 1) with true by (symmetry; apply Reqb_true; lra).
    apply orb_true_r.
Qed.

Lemma multinomial_formula_finite (value : list Z) (n : Z) (p : list fl) :
  Forall positive_probability p -> finite (multinomial_formula value n p).
Proof.
  intros Hp. unfold multinomial_formula.
  assert (F : finite (fsum (map (fun vp : Z * fl =>
             fadd (fneg (Fin (ln (INR (fact (Z.to_nat (fst vp)))))))
                  (fmul (Fin (IZR (fst vp))) (flog (snd vp))))
             (combine value p)))).
  { apply fsum_finite, Forall_map, Forall_forall. intros [v x] Hin; simpl.
    apply in_combine_r in Hin. rewrite Forall_forall in Hp.
    destruct (Hp x Hin) as [r [-> [Hr _]]]. simpl.
    replace (Rltb 0 r) with true by (symmetry; apply Rltb_true; exact Hr).
    simpl. eexists; reflexivity. }
  destruct F as [s ->]. simpl. eexists; reflexivity.
Qed.

End Multinomial.

(** C7, as the code has it.  For counts and probabilities of one length:
    [Multinomial.logp(value, n, p)] is the closed form
    [ln(n!) + sum(-ln(value_i!) + value_i * ln(p_i))] whenever [value >= 0],
    [sum(value) == n], [0 <= p <= 1], [sum(p) == 1] and [n >= 0] all hold; it
    is negative infinity whenever one of [value >= 0], [sum(value) == n],
    [p <= 1], [sum(p) == 1], [n >= 0] fails; and for [n >= 0] and
    probabilities in (0, 1] that sum to one it is finite exactly on the
    support [value >= 0], [sum(value) == n]. *)
Theorem Multinomial_logp_spec (value : list Z) (n : Z) (p : list fl) :
  length value = length p ->
  (Forall (fun v => (0 <= v)%Z) value ->
   fold_left Z.add value 0%Z = n ->
   Forall (fun x => fle (Fin 0) x = true /\ fle x (Fin 1) = true) p ->
   feq (fsum p) (Fin 1) = true ->
   (0 <= n)%Z ->
   Multivariate.Multinomial_logp true value n p
   = Ok (T0 (Multivariate.multinomial_formula value n p)))
  /\ (~ (Forall (fun v => (0 <= v)%Z) value
         /\ fold_left Z.add value 0%Z = n
         /\ Forall (fun x => fle x (Fin 1) = true) p
         /\ feq (fsum p) (Fin 1) = true
         /\ (0 <= n)%Z) ->
      Multivariate.Multinomial_logp true value n p = Ok (T0 NInf))
  /\ ((0 <= n)%Z ->
      Forall Multivariate.positive_probability p ->
      feq (fsum p) (Fin 1) = true ->
      exists x,
        Multivariate.Multinomial_logp true value n p = Ok (T0 x)
        /\ (finite x <-> Forall (fun v => (0 <= v)%Z) value
                         /\ fold_left Z.add value 0%Z = n)).
Proof.
  intros Hlen. rewrite (Multinomial_logp_unfold value n p Hlen).
  split; [|split].
  - intros Hv Hs Hp Hsum Hn.
    replace (Multivariate.multinomial_conditions value n p) with true.
    + rewrite multinomial_expr_formula by assumption. reflexivity.
    + symmetry. apply multinomial_conditions_true.
      repeat split; try assumption.
      revert Hp; apply Forall_impl; intros x [_ H]; exact H.
  - intros Hnot.
    destruct (Multivariate.multinomial_conditions value n p) eqn:E;
      [|reflexivity].
    exfalso; apply Hnot, multinomial_conditions_true, E.
  - intros Hn Hp Hsum.
    destruct (Multivariate.multinomial_conditions value n p) eqn:E.
    + apply multinomial_conditions_true in E.
      destruct E as [Hv [Hs _]].
      eexists; split; [reflexivity|].
      rewrite multinomial_expr_formula by assumption.
      split; [intros _; split; assumption|].
      intros _. apply multinomial_formula_finite, Hp.
    + exists NInf; split; [reflexivity|].
      split; [intros [r Hr]; discriminate|].
      intros [Hv Hs]. exfalso.
      assert (T : Multivariate.multinomial_conditions value n p = true);
        [|rewrite T in E; discriminate].
      apply multinomial_conditions_true. repeat split; try assumption.
      revert Hp; apply Forall_impl; intros x Hx.
      apply positive_probability_le_1, Hx.
Qed.

Lemma Multinomial_logp_spec_witness :
  Multivariate.Multinomial_logp true [1; 5]%Z 6%Z [Fin (1 / 2); Fin (1 / 2)]
  = Ok (T0 (Multivariate.multinomial_formula [1; 5]%Z 6%Z
              [Fin (1 / 2); Fin (1 / 2)])).
Proof.
  apply (Multinomial_logp_spec [1; 5]%Z 6%Z [Fin (1 / 2); Fin (1 / 2)]).
  - reflexivity.
  - repeat constructor; lia.
  - reflexivity.
  - repeat constructor; unfold fle; simpl; real_tests; reflexivity.
  - simpl; real_tests; reflexivity.
  - lia.
Defined.

(** C7 fails as stated, twice.  With [n = 1] and [p = [0, 1]], which satisfy
    [0 <= p <= 1] and [sum(p) == 1], the count vector [[1, 0]] is in the
    support and its log-density is negative infinity.  With [n = 2] and
    [p = [-1/2, 1/2, 1]], where [p >= 0] fails, the log-density of [[0, 1, 1]]
    is NaN and not negative infinity. *)
Lemma Multinomial_logp_counterexample :
  Multivariate.Multinomial_logp true [1; 0]%Z 1%Z [Fin 0; Fin 1] = Ok (T0 NInf)
  /\ Multivariate.Multinomial_logp true [0; 1; 1]%Z 2%Z
       [Fin (- (1 / 2)); Fin (1 / 2); Fin 1] = Ok (T0 NaN).
Proof.
  split.
  - rewrite Multinomial_logp_unfold by reflexivity.
    unfold Multivariate.multinomial_conditions, fle, DistMath.logpow,
      DistMath.factln.
    cbn -[IZR INR ln fact]. real_tests. cbn -[IZR INR ln fact]. real_tests.
    reflexivity.
  - rewrite Multinomial_logp_unfold by reflexivity.
    unfold Multivariate.multinomial_conditions, fle, DistMath.logpow,
      DistMath.factln.
    cbn -[IZR INR ln fact]. real_tests. cbn -[IZR INR ln fact]. real_tests.
    reflexivity.
Qed.

(** ** Dictionaries *)

Section DictFacts.

Import PyDict.
Context {V : Type}.

Lemma get_set_same (k : string) (v : V) (d : dict V) :
  get k (set k v d) = Some v.
Proof.
  induction d as [|[k' v'] d IH]; simpl.
  - rewrite String.eqb_refl; reflexivity.
  - destruct (String.eqb k k') eqn:E; simpl.
    + rewrite String.eqb_refl; reflexivity.
    + rewrite E; exact IH.
Qed.

Lemma get_set_other (k k' : string) (v : V) (d : dict V) :
  k <> k' -> get k' (set k v d) = get k' d.
Proof.
  intros Hne. induction d as [|[k0 v0] d IH]; simpl.
  - replace (String.eqb k' k) with false; [reflexivity|].
    symmetry; apply String.eqb_neq; congruence.
  - destruct (String.eqb k k0) eqn:E; simpl.
    + apply String.eqb_eq in E; subst k0.
      replace (String.eqb k' k) with false; [reflexivity|].
      symmetry; apply String.eqb_neq; congruence.
    + rewrite IH; reflexivity.
Qed.

Lemma get_none_keys (k : string) (d : dict V) :
  get k d = None <-> ~ In k (keys d).
Proof.
  induction d as [|[k' v'] d IH]; simpl; [tauto|].
  destruct (String.eqb k k') eqn:E.
  - apply String.eqb_eq in E; subst. split; [discriminate | tauto].
  - apply String.eqb_neq in E. rewrite IH. split.
    + intros H [H'|H']; [congruence | tauto].
    + tauto.
Qed.

Lemma get_some_In (k : string) (v : V) (d : dict V) :
  get k d = Some v -> In v (values d).
Proof.
  induction d as [|[k' v'] d IH]; simpl; [discriminate|].
  destruct (String.eqb k k'); [intros E; inversion E; auto | auto].
Qed.

Lemma set_fresh (k : string) (v : V) (d : dict V) :
  ~ In k (keys d) -> set k v d = d ++ [(k, v)].
Proof.
  induction d as [|[k' v'] d IH]; simpl; intros H; [reflexivity|].
  destruct (String.eqb k k') eqn:E.
  - apply String.eqb_eq in E; subst; tauto.
  - rewrite IH by tauto; reflexivity.
Qed.

Lemma keys_set (k k' : string) (v : V) (d : dict V) :
  In k' (keys (set k v d)) <-> k' = k \/ In k' (keys d).
Proof.
  induction d as [|[k0 v0] d IH]; simpl.
  - intuition.
  - destruct (String.eqb k k0) eqn:E; simpl.
    + apply String.eqb_eq in E; subst. intuition.
    + rewrite IH. intuition.
Qed.

Lemma NoDup_keys_set (k : string) (v : V) (d : dict V) :
  NoDup (keys d) -> NoDup (keys (set k v d)).
Proof.
  induction d as [|[k0 v0] d IH]; simpl; intros H.
  - constructor; [tauto | constructor].
  - inversion H as [|? ? Hnot Hd]; subst.
    destruct (String.eqb k k0) eqn:E; simpl.
    + apply String.eqb_eq in E; subst. constructor; assumption.
    + constructor; [|apply IH, Hd].
      intros Hin. apply (keys_set k k0 v d) in Hin.
      apply String.eqb_neq in E. destruct Hin; [congruence | tauto].
Qed.

Lemma Forall_values_set (P : V -> Prop) (k : string) (v : V) (d : dict V) :
  P v -> Forall P (values d) -> Forall P (values (set k v d)).
Proof.
  intros Hv. induction d as [|[k0 v0] d IH]; simpl; intros H.
  - constructor; [exact Hv | constructor].
  - inversion H; subst.
    destruct (String.eqb k k0); simpl; constructor; auto.
Qed.

End DictFacts.

(** ** The array bijection and [ArrayStep.step] *)

Section Bijection.

Import PyDict Blocking ArrayStepPy.
Context {A : Type}.

Lemma ndarray_eta (a : ndarray A) :
  {| shape := shape a; data := data a |} = a.
Proof. destruct a; reflexivity. Qed.

(** Unflattening what was flattened appends the flattened entries, in order. *)
Lemma rmap_loop_map (d res : point A) :
  Forall wf_array (values d) ->
  NoDup (keys res ++ keys d) ->
  rmap_loop (point_map_info (DictToArrayBijection_map d))
            (rv_data (DictToArrayBijection_map d)) res
  = Ok (res ++ d).
Proof.
  revert res; induction d as [|[k a] d IH]; intros res Hwf Hnd; simpl.
  - rewrite app_nil_r; reflexivity.
  - inversion Hwf as [|? ? Ha Hd]; subst. unfold wf_array in Ha.
    rewrite firstn_app, Ha, Nat.sub_diag, firstn_all2 by lia.
    simpl firstn. rewrite app_nil_r, Ha, Nat.eqb_refl.
    rewrite skipn_app, Ha, Nat.sub_diag, skipn_all2 by lia.
    simpl skipn. simpl app at 2.
    rewrite ndarray_eta.
    assert (Hk : ~ In k (keys res)).
    { simpl in Hnd. apply NoDup_remove_2 in Hnd.
      intros Hin; apply Hnd, in_or_app; left; exact Hin. }
    rewrite (set_fresh k a res Hk).
    specialize (IH (res ++ [(k, a)]) Hd).
    simpl in IH. rewrite <- app_assoc in IH; simpl in IH. apply IH.
    unfold keys in *. rewrite map_app; simpl. rewrite <- app_assoc; exact Hnd.
Qed.

(** Unflattening leaves every name outside the metadata as it was. *)
Lemma rmap_loop_frame (info : list (string * list nat)) (dat : list A)
    (res res' : point A) :
  rmap_loop info dat res = Ok res' ->
  forall name, ~ In name (map fst info) -> get name res' = get name res.
Proof.
  revert dat res; induction info as [|[k shp] info IH]; intros dat res; simpl.
  - intros E; inversion E; reflexivity.
  - destruct (Nat.eqb _ _); [|discriminate].
    intros E name Hname. rewrite (IH _ _ E name) by tauto.
    apply get_set_other. intros ->; tauto.
Qed.

Lemma restrict_spec (names : list string) (pt acc : point A) :
  (forall name, In name names -> mem name pt = true) ->
  exists d,
    restrict names pt acc = Ok d
    /\ (forall name,
          get name d = if in_dec string_dec name names
                       then get name pt else get name acc)
    /\ (NoDup (keys acc) -> NoDup (keys d))
    /\ (forall P, Forall P (values pt) -> Forall P (values acc) ->
                  Forall P (values d))
    /\ (forall name, In name (keys d) -> In name names \/ In name (keys acc)).
Proof.
  revert acc; induction names as [|n names IH]; intros acc Hin; simpl.
  - exists acc. repeat split; auto.
  - assert (Hn : mem n pt = true) by (apply Hin; left; reflexivity).
    unfold mem in Hn. destruct (get n pt) as [v|] eqn:Ev; [|discriminate].
    destruct (IH (set n v acc)) as [d [Ed [Hget [Hnd [Hall Hkeys]]]]].
    { intros name Hname; apply Hin; right; exact Hname. }
    exists d. split; [exact Ed|]. split; [|split; [|split]].
    + intros name. rewrite Hget.
      destruct (string_dec n name) as [->|Hne].
      * destruct (in_dec string_dec name names); [reflexivity|].
        rewrite get_set_same; symmetry; exact Ev.
      * destruct (in_dec string_dec name names); [reflexivity|].
        apply get_set_other, Hne.
    + intros H; apply Hnd, NoDup_keys_set, H.
    + intros P Hpt Hacc. apply Hall; [exact Hpt|].
      apply Forall_values_set; [|exact Hacc].
      rewrite Forall_forall in Hpt. apply Hpt, (get_some_In n), Ev.
    + intros name Hname. destruct (Hkeys name Hname) as [H|H]; [tauto|].
      apply keys_set in H. destruct H as [->|H]; tauto.
Qed.

Lemma restrict_keys (names : list string) (pt acc d : point A) :
  restrict names pt acc = Ok d ->
  forall k, In k (keys d) -> In k names \/ In k (keys acc).
Proof.
  revert acc d; induction names as [|n names IH]; intros acc d; simpl.
  - intros E; inversion E; auto.
  - destruct (get n pt) as [v|]; [|discriminate].
    intros E k Hk. destruct (IH _ _ E k Hk) as [H|H]; [tauto|].
    apply keys_set in H. destruct H as [->|H]; tauto.
Qed.

Lemma keys_map_info (d : point A) :
  map fst (point_map_info (DictToArrayBijection_map d)) = keys d.
Proof.
  unfold DictToArrayBijection_map, keys; simpl.
  rewrite map_map; reflexivity.
Qed.

Context {V Stats : Type}.

Lemma step_frame (self : ArrayStep A V Stats) (pt pt' : point A)
    (stats : option Stats) :
  keeps_mapping self ->
  step self pt = Ok (pt', stats) ->
  forall name, ~ In name (vars self) -> get name pt' = get name pt.
Proof.
  intros Hkeep Hstep name Hname. unfold step in Hstep.
  destruct (restrict (vars self) pt []) as [d|e] eqn:Ed; [|discriminate].
  simpl in Hstep.
  assert (Hd : forall k, In k (keys d) -> In k (vars self)).
  { intros k Hk. destruct (restrict_keys _ _ _ _ Ed k Hk) as [H|H];
      [exact H | destruct H]. }
  pose (args := (DictToArrayBijection_map d,
                 map (fun x => DictToArrayBijection_mapf x pt) (fs self),
                 if allvars self then Some pt else None)).
  fold args in Hstep.
  assert (Hout : forall a s,
            match astep self with
            | astep_plain f => a0 <- f args ;; Ok (a0, None)
            | astep_with_stats f => r <- f args ;; Ok (fst r, Some (snd r))
            end = Ok (a, s) ->
            astep_output (astep self) args = Ok a).
  { intros a s. unfold astep_output.
    destruct (astep self) as [f|f]; destruct (f args) as [r|e]; simpl;
      intros E; inversion E; reflexivity. }
  destruct (match astep self with
            | astep_plain f => a0 <- f args ;; Ok (a0, None)
            | astep_with_stats f => r <- f args ;; Ok (fst r, Some (snd r))
            end) as [[a s]|e] eqn:Ea; [|discriminate].
  simpl in Hstep. specialize (Hout a s eq_refl).
  unfold DictToArrayBijection_rmap in Hstep.
  match type of Hstep with
  | bind (rmap_loop ?info ?dat pt) _ = _ =>
      destruct (rmap_loop info dat pt) as [res|e] eqn:Er; [|discriminate];
      assert (Hinfo : ~ In name (map fst info))
  end.
  { destruct a as [raw|r].
    - change (~ In name (map fst (point_map_info (DictToArrayBijection_map d)))).
      rewrite keys_map_info. intros H; apply Hname, Hd, H.
    - simpl. intros H; apply Hname. exact (Hkeep args r Hout name H). }
  simpl in Hstep. inversion Hstep; subst.
  exact (rmap_loop_frame _ _ _ _ Er name Hinfo).
Qed.

End Bijection.

(** C5.  For a point whose values are arrays and a step method whose
    variables are all in the point: restricting the point to the variables
    succeeds, the restriction [d] has exactly the point's values at the
    variables, flattening [d] and unflattening the result gives [d] back
    (the same names, shapes and entries, in the same order), and the point
    returned by [step] has the input point's value at every name that is not
    a variable of the step method, provided [astep] keeps the mapping. *)
Theorem array_bijection_roundtrip_and_frame (A V Stats : Type)
    (self : ArrayStepPy.ArrayStep A V Stats) (pt : Blocking.point A) :
  Forall Blocking.wf_array (PyDict.values pt) ->
  (forall name, In name (ArrayStepPy.vars self) -> PyDict.mem name pt = true) ->
  exists d,
    ArrayStepPy.restrict (ArrayStepPy.vars self) pt [] = Ok d
    /\ (forall name,
          PyDict.get name d
          = if in_dec string_dec name (ArrayStepPy.vars self)
            then PyDict.get name pt else None)
    /\ Blocking.DictToArrayBijection_rmap
         (Blocking.DictToArrayBijection_map d) None = Ok d
    /\ (ArrayStepPy.keeps_mapping self ->
        forall pt' stats,
          ArrayStepPy.step self pt = Ok (pt', stats) ->
          forall name, ~ In name (ArrayStepPy.vars self) ->
                       PyDict.get name pt' = PyDict.get name pt).
Proof.
  intros Hwf Hin.
  destruct (restrict_spec (ArrayStepPy.vars self) pt [] Hin)
    as [d [Ed [Hget [Hnd [Hall _]]]]].
  exists d. split; [exact Ed|]. split; [exact Hget|]. split.
  - unfold Blocking.DictToArrayBijection_rmap.
    rewrite rmap_loop_map; [reflexivity | |].
    + apply Hall; [exact Hwf | constructor].
    + simpl. apply Hnd; constructor.
  - intros Hkeep pt' stats Hstep. exact (step_frame self pt pt' stats Hkeep Hstep).
Qed.

Lemma example_step_returns_point :
  ArrayStepPy.step ArrayStepPy.example_step ArrayStepPy.example_point
  = Ok (ArrayStepPy.example_point, None).
Proof. reflexivity. Qed.

Lemma array_bijection_roundtrip_and_frame_witness :
  exists d,
    ArrayStepPy.restrict (ArrayStepPy.vars ArrayStepPy.example_step)
      ArrayStepPy.example_point [] = Ok d
    /\ (forall name,
          PyDict.get name d
          = if in_dec string_dec name (ArrayStepPy.vars ArrayStepPy.example_step)
            then PyDict.get name ArrayStepPy.example_point else None)
    /\ Blocking.DictToArrayBijection_rmap
         (Blocking.DictToArrayBijection_map d) None = Ok d
    /\ (ArrayStepPy.keeps_mapping ArrayStepPy.example_step ->
        forall pt' stats,
          ArrayStepPy.step ArrayStepPy.example_step ArrayStepPy.example_point
          = Ok (pt', stats) ->
          forall name, ~ In name (ArrayStepPy.vars ArrayStepPy.example_step) ->
                       PyDict.get name pt'
                       = PyDict.get name ArrayStepPy.example_point).
Proof.
  apply (array_bijection_roundtrip_and_frame nat unit unit
           ArrayStepPy.example_step ArrayStepPy.example_point).
  - repeat constructor.
  - intros name [<-|[]]; reflexivity.
Defined.

(** ** Construction of step methods *)

Section BlockedStepNew.

Import PyDict ArrayStepPy.

Context {Model State : Type}.
Variable modelcontext : pyval Model -> result Model.
Variable value_vars : Model -> pyval Model.

Lemma mem_set_other {V : Type} (k k' : string) (v : V) (d : dict V) :
  k <> k' -> mem k' (set k v d) = mem k' d.
Proof. intros H; unfold mem; rewrite get_set_other by exact H; reflexivity. Qed.

Lemma kwargs_get_set_other (k k' : string) (v : pyval Model)
    (d : dict (pyval Model)) :
  k <> k' -> kwargs_get k' (set k v d) = kwargs_get k' d.
Proof. intros H; unfold kwargs_get; rewrite get_set_other by exact H; reflexivity. Qed.

(** Setting another keyword does not change which variables are given. *)
Lemma given_vars_set (k : string) (v : pyval Model) (args : list (pyval Model))
    (kwargs : dict (pyval Model)) (model : Model) :
  k <> "vars"%string ->
  given_vars value_vars args (set k v kwargs) model
  = given_vars value_vars args kwargs model.
Proof.
  intros H. unfold given_vars, select_vars.
  rewrite (mem_set_other k "vars" v kwargs H).
  rewrite (kwargs_get_set_other k "vars" v kwargs H).
  destruct (mem "vars" kwargs); destruct args; reflexivity.
Qed.

Lemma resolve_blocked_model (cls : step_class Model State)
    (kwargs : dict (pyval Model)) :
  kwargs_get "model" (snd (resolve_blocked cls kwargs)) = kwargs_get "model" kwargs.
Proof.
  unfold resolve_blocked.
  destruct (kwargs_get "blocked" kwargs); try reflexivity.
  simpl. apply kwargs_get_set_other. discriminate.
Qed.

Lemma resolve_blocked_vars (cls : step_class Model State)
    (args : list (pyval Model)) (kwargs : dict (pyval Model)) (model : Model) :
  given_vars value_vars args (snd (resolve_blocked cls kwargs)) model
  = given_vars value_vars args kwargs model.
Proof.
  unfold resolve_blocked.
  destruct (kwargs_get "blocked" kwargs); try reflexivity.
  simpl. apply given_vars_set. discriminate.
Qed.

Lemma BlockedStep_new_empty (cls : step_class Model State)
    (args : list (pyval Model)) (kwargs : dict (pyval Model))
    (model : Model) (created : nat) :
  modelcontext (kwargs_get "model" kwargs) = Ok model ->
  items (as_sequence (given_vars value_vars args kwargs model)) = [] ->
  BlockedStep_new modelcontext value_vars cls args kwargs created
  = (Raise ValueError, created).
Proof.
  intros Hmodel Hempty. unfold BlockedStep_new.
  pose proof (resolve_blocked_model cls kwargs) as Em.
  pose proof (resolve_blocked_vars cls args kwargs model) as Ev.
  destruct (resolve_blocked cls kwargs) as [blocked kwargs1]; simpl in Em, Ev.
  unfold abind, lift. rewrite Em, Hmodel.
  rewrite <- Ev in Hempty.
  rewrite <- (given_vars_set "model" (PyModel model) args kwargs1 model)
    in Hempty by discriminate.
  unfold given_vars in Hempty.
  destruct (select_vars value_vars args (set "model" (PyModel model) kwargs1) model)
    as [[vars args'] kwargs'].
  simpl in Hempty. rewrite Hempty. reflexivity.
Qed.

Lemma amapM_new_single (cls : step_class Model State)
    (args : list (pyval Model)) (kwargs : dict (pyval Model))
    (vars : list (pyval Model)) (created : nat) :
  (forall var, In var vars ->
               exists st, init cls (PyList [var] :: args) kwargs = Ok st) ->
  exists steps,
    amapM (new_single cls args kwargs) vars created
    = (Ok steps, (created + length vars)%nat)
    /\ Forall2 (built_for cls args kwargs)
               (combine (seq created (length vars)) vars) steps.
Proof.
  revert created; induction vars as [|var vars IH]; intros created Hinit; simpl.
  - exists []. split; [unfold aret; rewrite Nat.add_0_r; reflexivity | constructor].
  - destruct (Hinit var (or_introl eq_refl)) as [st Est].
    destruct (IH (S created)) as [steps [Esteps Hsteps]].
    { intros v Hv; apply Hinit; right; exact Hv. }
    eexists. split.
    + unfold abind at 1. unfold new_single at 1.
      unfold abind, object_new, lift, aret. rewrite Est.
      unfold abind in Esteps. rewrite Esteps.
      replace (S created + length vars)%nat
        with (created + S (length vars))%nat by lia.
      reflexivity.
    + constructor; [|exact Hsteps].
      repeat split; simpl. exists st; split; [reflexivity | exact Est].
Qed.

End BlockedStepNew.

(** C10, as the code has it.  When the model lookup succeeds and the
    variables a call is given
    (first positional argument, [vars] keyword, or the model's own variables)
    form an empty sequence, [BlockedStep.__new__] raises a ValueError and no
    object has been created, whatever the class, the [blocked] flag and the
    other arguments. *)
Theorem BlockedStep_new_no_vars (Model State : Type)
    (modelcontext : ArrayStepPy.pyval Model -> result Model)
    (value_vars : Model -> ArrayStepPy.pyval Model)
    (cls : ArrayStepPy.step_class Model State)
    (args : list (ArrayStepPy.pyval Model))
    (kwargs : PyDict.dict (ArrayStepPy.pyval Model))
    (model : Model) (created : nat) :
  modelcontext (ArrayStepPy.kwargs_get "model" kwargs) = Ok model ->
  ArrayStepPy.items
    (ArrayStepPy.as_sequence (ArrayStepPy.given_vars value_vars args kwargs model))
  = [] ->
  ArrayStepPy.BlockedStep_new modelcontext value_vars cls args kwargs created
  = (Raise ValueError, created).
Proof. apply BlockedStep_new_empty. Qed.

Lemma BlockedStep_new_no_vars_witness :
  ArrayStepPy.BlockedStep_new (Model := unit) (State := unit)
    (fun _ => Ok tt) (fun _ => ArrayStepPy.PyList [])
    (ArrayStepPy.mk_step_class None (fun _ _ => Ok tt))
    [ArrayStepPy.PyTuple []]
    [("blocked"%string, ArrayStepPy.PyBool false)] 0%nat
  = (Raise ValueError, 0%nat).
Proof.
  apply (BlockedStep_new_no_vars unit unit (fun _ => Ok tt)
           (fun _ => ArrayStepPy.PyList [])
           (ArrayStepPy.mk_step_class None (fun _ _ => Ok tt))
           [ArrayStepPy.PyTuple []]
           [("blocked"%string, ArrayStepPy.PyBool false)] tt 0%nat).
  - reflexivity.
  - reflexivity.
Defined.

(** C9, as the code has it.  When [blocked=False] is passed as a keyword,
    the model lookup succeeds, the
    variables given form a sequence of more than one variable and [__init__]
    succeeds on each of them, [BlockedStep.__new__] returns a CompoundStep
    whose sub-steps are, in the order of the variables, one newly created
    object per variable, initialised with [[var]] and the remaining
    arguments. *)
Theorem BlockedStep_new_not_blocked (Model State : Type)
    (modelcontext : ArrayStepPy.pyval Model -> result Model)
    (value_vars : Model -> ArrayStepPy.pyval Model)
    (cls : ArrayStepPy.step_class Model State)
    (args args' : list (ArrayStepPy.pyval Model))
    (kwargs kwargs' : PyDict.dict (ArrayStepPy.pyval Model))
    (model : Model) (vars : ArrayStepPy.pyval Model) (created : nat) :
  PyDict.get "blocked" kwargs = Some (ArrayStepPy.PyBool false) ->
  modelcontext (ArrayStepPy.kwargs_get "model" kwargs) = Ok model ->
  ArrayStepPy.select_vars value_vars args
    (PyDict.set "model" (ArrayStepPy.PyModel model) kwargs) model
  = (vars, args', kwargs') ->
  (1 < length (ArrayStepPy.items (ArrayStepPy.as_sequence vars)))%nat ->
  (forall var,
      In var (ArrayStepPy.items (ArrayStepPy.as_sequence vars)) ->
      exists st,
        ArrayStepPy.init cls (ArrayStepPy.PyList [var] :: args') kwargs' = Ok st) ->
  exists steps,
    ArrayStepPy.BlockedStep_new modelcontext value_vars cls args kwargs created
    = (Ok (ArrayStepPy.CompoundStep steps),
       (created + length (ArrayStepPy.items (ArrayStepPy.as_sequence vars)))%nat)
    /\ Forall2 (ArrayStepPy.built_for cls args' kwargs')
         (combine
            (seq created (length (ArrayStepPy.items (ArrayStepPy.as_sequence vars))))
            (ArrayStepPy.items (ArrayStepPy.as_sequence vars)))
         steps.
Proof.
  intros Hblocked Hmodel Hselect Hmany Hinit.
  destruct (amapM_new_single cls args' kwargs'
              (ArrayStepPy.items (ArrayStepPy.as_sequence vars)) created Hinit)
    as [steps [Esteps Hsteps]].
  exists steps. split; [|exact Hsteps].
  unfold ArrayStepPy.BlockedStep_new, ArrayStepPy.resolve_blocked,
    ArrayStepPy.kwargs_get at 1.
  rewrite Hblocked.
  unfold ArrayStepPy.abind at 1. unfold ArrayStepPy.lift. rewrite Hmodel.
  rewrite Hselect.
  replace (Nat.eqb (length (ArrayStepPy.items (ArrayStepPy.as_sequence vars))) 0%nat)
    with false by (symmetry; apply Nat.eqb_neq; lia).
  replace (Nat.ltb 1%nat (length (ArrayStepPy.items (ArrayStepPy.as_sequence vars))))
    with true by (symmetry; apply Nat.ltb_lt; lia).
  simpl. unfold ArrayStepPy.abind. rewrite Esteps. reflexivity.
Qed.

Lemma BlockedStep_new_not_blocked_witness :
  exists steps,
    ArrayStepPy.BlockedStep_new (Model := unit) (State := unit)
      (fun _ => Ok tt) (fun _ => ArrayStepPy.PyList [])
      (ArrayStepPy.mk_step_class None (fun _ _ => Ok tt))
      [ArrayStepPy.PyList [ArrayStepPy.PyVar "a"; ArrayStepPy.PyVar "b"]]
      [("blocked"%string, ArrayStepPy.PyBool false)] 0%nat
    = (Ok (ArrayStepPy.CompoundStep steps), 2%nat)
    /\ Forall2
         (ArrayStepPy.built_for
            (ArrayStepPy.mk_step_class None (fun _ _ => Ok tt)) []
            [("blocked"%string, ArrayStepPy.PyBool false);
             ("model"%string, ArrayStepPy.PyModel tt)])
         [(0%nat, ArrayStepPy.PyVar "a"); (1%nat, ArrayStepPy.PyVar "b")]
         steps.
Proof.
  apply (BlockedStep_new_not_blocked unit unit (fun _ => Ok tt)
           (fun _ => ArrayStepPy.PyList [])
           (ArrayStepPy.mk_step_class None (fun _ _ => Ok tt))
           [ArrayStepPy.PyList [ArrayStepPy.PyVar "a"; ArrayStepPy.PyVar "b"]]
           []
           [("blocked"%string, ArrayStepPy.PyBool false)]
           [("blocked"%string, ArrayStepPy.PyBool false);
            ("model"%string, ArrayStepPy.PyModel tt)]
           tt
           (ArrayStepPy.PyList [ArrayStepPy.PyVar "a"; ArrayStepPy.PyVar "b"])
           0%nat).
  - reflexivity.
  - reflexivity.
  - reflexivity.
  - simpl; lia.
  - intros var _. exists tt. reflexivity.
Defined.

(** ** A check of the embedding against the closed form

    At the mean, with the 1x1 identity covariance, the density of MvNormal
    is [-0.5 * log(2 pi)]. *)
Lemma MvNormal_logp_at_mean_identity :
  exists r,
    Multivariate.MvNormal_logp true (T1 [Fin 0]) (T0 (Fin 0)) [[Fin 1]]
    = Ok (T0 (Fin r))
    /\ r = - (1 / 2) * ln (2 * PI).
Proof.
  pose proof PI_RGT_0 as Hpi.
  unfold Multivariate.MvNormal_logp, Multivariate.quaddist_parse,
    Multivariate.cholesky, Aesara.Cholesky, Aesara.scipy_cholesky.
  simpl. unfold Aesara.chol_row; simpl. real_tests. simpl.
  replace (1 + - 0) with 1 by lra. rewrite sqrt_1.
  unfold Multivariate.quaddist_chol, Multivariate.chol_for_solve,
    Multivariate.chol_ok, Aesara.solve_lower. simpl.
  unfold fgt. simpl. real_tests. simpl. real_tests. simpl.
  unfold Multivariate.log_2pi. simpl. real_tests. simpl.
  eexists. split; [rewrite bound_scalar_condition; reflexivity|].
  rewrite ln_1. lra.
Qed.

(** * Further properties of the step-method module *)

(** ** The acceptance rule as a probability *)

Lemma flog_unit_interval (u : R) :
  0 <= u < 1 -> flog (Fin u) = NInf \/ exists l, flog (Fin u) = Fin l /\ l < 0.
Proof.
  intros [H0 H1]. simpl.
  destruct (Rlt_dec 0 u) as [Hpos|Hnpos].
  - right. exists (ln u).
    replace (Rltb 0 u) with true by (symmetry; apply Rltb_true; exact Hpos).
    split; [reflexivity|]. rewrite <- ln_1. apply ln_increasing; assumption.
  - left.
    replace (Rltb 0 u) with false by (symmetry; apply Rltb_false; exact Hnpos).
    replace (Reqb u 0) with true by (symmetry; apply Reqb_true; lra).
    reflexivity.
Qed.

(** X1.  A finite, non-negative log acceptance ratio accepts the proposal
    for every draw of [uniform()], which lies in [0, 1). *)
Theorem metrop_select_nonneg_accepts (A : Type) (u mr : R) (q q0 : A) :
  0 <= u < 1 -> 0 <= mr ->
  ArrayStepPy.metrop_select (Fin u) (Fin mr) q q0 = (q, true).
Proof.
  intros Hu Hmr. unfold ArrayStepPy.metrop_select.
  destruct (flog_unit_interval u Hu) as [E|[l [E Hl]]]; rewrite E; simpl.
  - reflexivity.
  - replace (Rltb l mr) with true by (symmetry; apply Rltb_true; lra).
    reflexivity.
Qed.

Lemma metrop_select_nonneg_accepts_witness :
  ArrayStepPy.metrop_select (Fin (1 / 2)) (Fin 0) 1%nat 0%nat = (1%nat, true).
Proof.
  apply (metrop_select_nonneg_accepts nat (1 / 2) 0 1%nat 0%nat); lra.
Defined.

(** X2.  For a finite log acceptance ratio [mr] and a draw [u] in [0, 1),
    the proposal is accepted exactly when [u < exp(mr)]: the acceptance
    probability is [min(1, exp(mr))]. *)
Theorem metrop_select_accepts_below_exp (A : Type) (u mr : R) (q q0 : A) :
  0 <= u < 1 ->
  (ArrayStepPy.metrop_select (Fin u) (Fin mr) q q0 = (q, true) <-> u < exp mr)
  /\ (ArrayStepPy.metrop_select (Fin u) (Fin mr) q q0 = (q0, false)
      <-> exp mr <= u).
Proof.
  intros [H0 H1].
  assert (Hdec : ArrayStepPy.metrop_select (Fin u) (Fin mr) q q0
                 = if Rlt_dec u (exp mr) then (q, true) else (q0, false)).
  { unfold ArrayStepPy.metrop_select. simpl.
    destruct (Rlt_dec 0 u) as [Hpos|Hnpos].
    - replace (Rltb 0 u) with true by (symmetry; apply Rltb_true; exact Hpos).
      simpl. destruct (Rlt_dec u (exp mr)) as [Hlt|Hge].
      + replace (Rltb (ln u) mr) with true; [reflexivity|].
        symmetry; apply Rltb_true.
        rewrite <- (ln_exp mr). apply ln_increasing; assumption.
      + replace (Rltb (ln u) mr) with false; [reflexivity|].
        symmetry; apply Rltb_false. intros Hln. apply Hge.
        rewrite <- (exp_ln u Hpos). apply exp_increasing, Hln.
    - replace (Rltb 0 u) with false by (symmetry; apply Rltb_false; exact Hnpos).
      replace (Reqb u 0) with true by (symmetry; apply Reqb_true; lra).
      simpl. pose proof (exp_pos mr).
      destruct (Rlt_dec u (exp mr)); [reflexivity | lra]. }
  rewrite Hdec. destruct (Rlt_dec u (exp mr)) as [Hlt|Hge]; split; split;
    intros H; try reflexivity; try lra; try discriminate; inversion H.
Qed.

Lemma metrop_select_accepts_below_exp_witness :
  (ArrayStepPy.metrop_select (Fin (1 / 2)) (Fin 0) 1%nat 0%nat = (1%nat, true)
   <-> 1 / 2 < exp 0)
  /\ (ArrayStepPy.metrop_select (Fin (1 / 2)) (Fin 0) 1%nat 0%nat = (0%nat, false)
      <-> exp 0 <= 1 / 2).
Proof.
  apply (metrop_select_accepts_below_exp nat (1 / 2) 0 1%nat 0%nat); lra.
Defined.

(** ** More on dictionaries *)

Section DictMore.

Import PyDict.
Context {V : Type}.

Lemma set_idem (k : string) (v : V) (d : dict V) :
  get k d = Some v -> set k v d = d.
Proof.
  induction d as [|[k' v'] d IH]; simpl; [discriminate|].
  destruct (String.eqb k k') eqn:E.
  - apply String.eqb_eq in E; subst. intros H; inversion H; reflexivity.
  - intros H; rewrite IH by exact H; reflexivity.
Qed.

Lemma keys_set_mem (k : string) (v : V) (d : dict V) :
  mem k d = true -> keys (set k v d) = keys d.
Proof.
  unfold mem. induction d as [|[k' v'] d IH]; simpl; [discriminate|].
  destruct (String.eqb k k') eqn:E; simpl.
  - apply String.eqb_eq in E; subst; reflexivity.
  - intros H; rewrite IH by exact H; reflexivity.
Qed.

Lemma get_remove_other (k k' : string) (d : dict V) :
  k <> k' -> get k' (remove k d) = get k' d.
Proof.
  intros Hne. induction d as [|[k0 v0] d IH]; simpl; [reflexivity|].
  destruct (String.eqb k k0) eqn:E; simpl.
  - apply String.eqb_eq in E; subst k0.
    replace (String.eqb k' k) with false; [reflexivity|].
    symmetry; apply String.eqb_neq; congruence.
  - rewrite IH; reflexivity.
Qed.

Lemma get_remove_same (k : string) (d : dict V) :
  NoDup (keys d) -> get k (remove k d) = None.
Proof.
  induction d as [|[k0 v0] d IH]; simpl; intros H; [reflexivity|].
  inversion H as [|? ? Hnot Hd]; subst.
  destruct (String.eqb k k0) eqn:E; simpl.
  - apply String.eqb_eq in E; subst k0. apply get_none_keys, Hnot.
  - rewrite E. apply IH, Hd.
Qed.

Lemma mem_get (k : string) (d : dict V) :
  mem k d = true <-> exists v, get k d = Some v.
Proof.
  unfold mem; destruct (get k d) as [v|]; split; intros H;
    try discriminate; eauto. destruct H; discriminate.
Qed.

End DictMore.

(** ** More on the construction of step methods *)

Section BlockedStepMore.

Import PyDict ArrayStepPy.

Context {Model State : Type}.
Variable modelcontext : pyval Model -> result Model.
Variable value_vars : Model -> pyval Model.

(** What the first lines of [__new__] compute before the branch. *)
Lemma BlockedStep_new_unfold (cls : step_class Model State)
    (args args' : list (pyval Model)) (kwargs kwargs1 kwargs' : dict (pyval Model))
    (blocked vars : pyval Model) (model : Model) (created : nat) :
  resolve_blocked cls kwargs = (blocked, kwargs1) ->
  modelcontext (kwargs_get "model" kwargs1) = Ok model ->
  select_vars value_vars args (set "model" (PyModel model) kwargs1) model
  = (vars, args', kwargs') ->
  BlockedStep_new modelcontext value_vars cls args kwargs created
  = (if Nat.eqb (length (items (as_sequence vars))) 0
     then araise ValueError
     else if negb (truthy blocked) && Nat.ltb 1 (length (items (as_sequence vars)))
     then abind (amapM (new_single cls args' kwargs') (items (as_sequence vars)))
                (fun steps => aret (CompoundStep steps))
     else abind object_new (fun id =>
          aret (Blocked {| obj_id := id;
                           obj_state := None;
                           newargs := (as_sequence vars :: args', kwargs') |})))
    created.
Proof.
  intros Hb Hm Hs. unfold BlockedStep_new. rewrite Hb.
  unfold abind at 1. unfold lift. rewrite Hm, Hs. reflexivity.
Qed.

End BlockedStepMore.

Section BlockedStepRoundTrip.

Import PyDict ArrayStepPy.

Context {Model State : Type}.
Variable modelcontext : pyval Model -> result Model.
Variable value_vars : Model -> pyval Model.

Lemma resolve_blocked_get (cls : step_class Model State)
    (kwargs kwargs1 : dict (pyval Model)) (blocked : pyval Model) :
  resolve_blocked cls kwargs = (blocked, kwargs1) ->
  get "blocked" kwargs1 = Some blocked.
Proof.
  unfold resolve_blocked, kwargs_get.
  destruct (get "blocked" kwargs) as [v|] eqn:E.
  - destruct v; intros H; inversion H; subst;
      try exact E; apply get_set_same.
  - intros H; inversion H; subst. apply get_set_same.
Qed.

Lemma resolve_blocked_keys (cls : step_class Model State)
    (kwargs kwargs1 : dict (pyval Model)) (blocked : pyval Model) :
  resolve_blocked cls kwargs = (blocked, kwargs1) ->
  NoDup (keys kwargs) -> NoDup (keys kwargs1).
Proof.
  unfold resolve_blocked.
  destruct (kwargs_get "blocked" kwargs); intros H Hnd; inversion H; subst;
    try exact Hnd; apply NoDup_keys_set, Hnd.
Qed.

(** The resolved value of [blocked] is found again in any keyword arguments
    that carry it. *)
Lemma resolve_blocked_fix (cls : step_class Model State)
    (kwargs kwargs1 kw : dict (pyval Model)) (blocked : pyval Model) :
  resolve_blocked cls kwargs = (blocked, kwargs1) ->
  get "blocked" kw = Some blocked ->
  resolve_blocked cls kw = (blocked, kw).
Proof.
  intros Hres Hget.
  assert (Hcase : blocked <> PyNone
                  \/ (blocked = PyNone /\ default_blocked cls = Some PyNone)).
  { revert Hres. unfold resolve_blocked.
    destruct (kwargs_get "blocked" kwargs) eqn:E; intros H; inversion H; subst;
      try (left; discriminate).
    destruct (default_blocked cls) as [b|]; [|left; discriminate].
    destruct b; try (left; discriminate). right; split; reflexivity. }
  unfold resolve_blocked, kwargs_get. rewrite Hget.
  destruct Hcase as [Hne|[-> Hdef]].
  - destruct blocked; try reflexivity. contradiction Hne; reflexivity.
  - rewrite Hdef. rewrite (set_idem _ _ _ Hget). reflexivity.
Qed.

Lemma select_vars_kwargs (args args' : list (pyval Model))
    (kw kw' : dict (pyval Model)) (model : Model) (vars : pyval Model) :
  select_vars value_vars args kw model = (vars, args', kw') ->
  NoDup (keys kw) ->
  mem "vars" kw' = false
  /\ forall k, k <> "vars"%string -> get k kw' = get k kw.
Proof.
  unfold select_vars. destruct (mem "vars" kw) eqn:E.
  - intros H Hnd; inversion H; subst. split.
    + unfold mem. rewrite get_remove_same by exact Hnd. reflexivity.
    + intros k Hk. apply get_remove_other. congruence.
  - destruct args; intros H _; inversion H; subst; split; auto.
Qed.

Lemma as_sequence_idem (v : pyval Model) :
  as_sequence (as_sequence v) = as_sequence v.
Proof. destruct v; reflexivity. Qed.

Lemma BlockedStep_new_reconstruct (cls : step_class Model State)
    (args : list (pyval Model)) (kwargs : dict (pyval Model))
    (created created' n : nat) (step : step_object Model State) :
  NoDup (keys kwargs) ->
  (forall m, modelcontext (PyModel m) = Ok m) ->
  BlockedStep_new modelcontext value_vars cls args kwargs created
  = (Ok (Blocked step), n) ->
  BlockedStep_new modelcontext value_vars cls
    (fst (newargs step)) (snd (newargs step)) created'
  = (Ok (Blocked {| obj_id := created';
                    obj_state := None;
                    newargs := newargs step |}), S created').
Proof.
  intros Hnd Hmc Hrun.
  destruct (resolve_blocked cls kwargs) as [blocked kwargs1] eqn:Hres.
  destruct (modelcontext (kwargs_get "model" kwargs1)) as [model|e] eqn:Hm.
  2:{ unfold BlockedStep_new in Hrun. rewrite Hres in Hrun.
      unfold abind, lift in Hrun. rewrite Hm in Hrun. discriminate. }
  destruct (select_vars value_vars args (set "model" (PyModel model) kwargs1) model)
    as [[vars args'] kwargs'] eqn:Hsel.
  rewrite (BlockedStep_new_unfold modelcontext value_vars cls args args'
             kwargs kwargs1 kwargs' blocked vars model created Hres Hm Hsel)
    in Hrun.
  destruct (Nat.eqb (length (items (as_sequence vars))) 0) eqn:Hlen;
    [discriminate Hrun|].
  destruct (negb (truthy blocked)
            && Nat.ltb 1 (length (items (as_sequence vars)))) eqn:Hbranch.
  { unfold abind, aret in Hrun.
    destruct (amapM (new_single cls args' kwargs') (items (as_sequence vars))
                    created) as [[steps|e] n'];
      discriminate Hrun. }
  unfold abind, object_new, aret in Hrun. inversion Hrun; subst step n; clear Hrun.
  simpl fst; simpl snd.
  pose proof (resolve_blocked_get cls kwargs kwargs1 blocked Hres) as Hb1.
  pose proof (resolve_blocked_keys cls kwargs kwargs1 blocked Hres Hnd) as Hnd1.
  assert (Hnd2 : NoDup (keys (set "model" (PyModel model) kwargs1)))
    by (apply NoDup_keys_set, Hnd1).
  destruct (select_vars_kwargs args args' _ kwargs' model vars Hsel Hnd2)
    as [Hmem Hother].
  assert (Hb' : get "blocked" kwargs' = Some blocked).
  { rewrite Hother by discriminate.
    rewrite get_set_other by discriminate. exact Hb1. }
  assert (Hm' : get "model" kwargs' = Some (PyModel model)).
  { rewrite Hother by discriminate. apply get_set_same. }
  rewrite (BlockedStep_new_unfold modelcontext value_vars cls
             (as_sequence vars :: args') args' kwargs' kwargs' kwargs'
             blocked (as_sequence vars) model created').
  - rewrite as_sequence_idem, Hlen, Hbranch. reflexivity.
  - exact (resolve_blocked_fix cls kwargs kwargs1 kwargs' blocked Hres Hb').
  - unfold kwargs_get. rewrite Hm'. apply Hmc.
  - rewrite (set_idem _ _ _ Hm'). unfold select_vars. rewrite Hmem. reflexivity.
Qed.

End BlockedStepRoundTrip.

(** X3.  When [blocked] resolves to a true value, or a single variable is
    given, [BlockedStep.__new__] creates exactly one object and returns it
    uninitialised, remembering the variable sequence and the remaining
    arguments for unpickling. *)
Theorem BlockedStep_new_single_instance (Model State : Type)
    (modelcontext : ArrayStepPy.pyval Model -> result Model)
    (value_vars : Model -> ArrayStepPy.pyval Model)
    (cls : ArrayStepPy.step_class Model State)
    (args args' : list (ArrayStepPy.pyval Model))
    (kwargs kwargs1 kwargs' : PyDict.dict (ArrayStepPy.pyval Model))
    (blocked vars : ArrayStepPy.pyval Model) (model : Model) (created : nat) :
  ArrayStepPy.resolve_blocked cls kwargs = (blocked, kwargs1) ->
  modelcontext (ArrayStepPy.kwargs_get "model" kwargs1) = Ok model ->
  ArrayStepPy.select_vars value_vars args
    (PyDict.set "model" (ArrayStepPy.PyModel model) kwargs1) model
  = (vars, args', kwargs') ->
  ArrayStepPy.items (ArrayStepPy.as_sequence vars) <> [] ->
  ArrayStepPy.truthy blocked = true
  \/ length (ArrayStepPy.items (ArrayStepPy.as_sequence vars)) = 1%nat ->
  ArrayStepPy.BlockedStep_new modelcontext value_vars cls args kwargs created
  = (Ok (ArrayStepPy.Blocked
           {| ArrayStepPy.obj_id := created;
              ArrayStepPy.obj_state := None;
              ArrayStepPy.newargs := (ArrayStepPy.as_sequence vars :: args', kwargs') |}),
     S created).
Proof.
  intros Hres Hm Hsel Hne Hcase.
  rewrite (BlockedStep_new_unfold modelcontext value_vars cls args args'
             kwargs kwargs1 kwargs' blocked vars model created Hres Hm Hsel).
  destruct (ArrayStepPy.items (ArrayStepPy.as_sequence vars)) as [|v l] eqn:E;
    [contradiction Hne; reflexivity|].
  simpl length. simpl Nat.eqb. cbv iota.
  destruct Hcase as [Ht|Hone].
  - rewrite Ht. reflexivity.
  - simpl in Hone. destruct l; [|discriminate Hone].
    rewrite andb_false_r. reflexivity.
Qed.

Lemma BlockedStep_new_single_instance_witness :
  ArrayStepPy.BlockedStep_new (Model := unit) (State := unit)
    (fun _ => Ok tt) (fun _ => ArrayStepPy.PyList [])
    (ArrayStepPy.mk_step_class None (fun _ _ => Ok tt))
    [ArrayStepPy.PyVar "a"]
    [("blocked"%string, ArrayStepPy.PyBool false)] 0%nat
  = (Ok (ArrayStepPy.Blocked
           {| ArrayStepPy.obj_id := 0%nat;
              ArrayStepPy.obj_state := None;
              ArrayStepPy.newargs :=
                (ArrayStepPy.as_sequence (ArrayStepPy.PyVar "a") :: [],
                 [("blocked"%string, ArrayStepPy.PyBool false);
                  ("model"%string, ArrayStepPy.PyModel tt)]) |}),
     1%nat).
Proof.
  apply (BlockedStep_new_single_instance unit unit (fun _ => Ok tt)
           (fun _ => ArrayStepPy.PyList [])
           (ArrayStepPy.mk_step_class None (fun _ _ => Ok tt))
           [ArrayStepPy.PyVar "a"] []
           [("blocked"%string, ArrayStepPy.PyBool false)]
           [("blocked"%string, ArrayStepPy.PyBool false)]
           [("blocked"%string, ArrayStepPy.PyBool false);
            ("model"%string, ArrayStepPy.PyModel tt)]
           (ArrayStepPy.PyBool false) (ArrayStepPy.PyVar "a") tt 0%nat).
  - reflexivity.
  - reflexivity.
  - reflexivity.
  - discriminate.
  - right; reflexivity.
Defined.

(** X4.  The model is looked up before the variables are examined: when the
    lookup raises, [BlockedStep.__new__] raises that exception, whatever
    the variables, and no object is created. *)
Theorem BlockedStep_new_model_error (Model State : Type)
    (modelcontext : ArrayStepPy.pyval Model -> result Model)
    (value_vars : Model -> ArrayStepPy.pyval Model)
    (cls : ArrayStepPy.step_class Model State)
    (args : list (ArrayStepPy.pyval Model))
    (kwargs : PyDict.dict (ArrayStepPy.pyval Model))
    (e : exn) (created : nat) :
  modelcontext (ArrayStepPy.kwargs_get "model" kwargs) = Raise e ->
  ArrayStepPy.BlockedStep_new modelcontext value_vars cls args kwargs created
  = (Raise e, created).
Proof.
  intros Hm. unfold ArrayStepPy.BlockedStep_new.
  pose proof (resolve_blocked_model cls kwargs) as Em.
  destruct (ArrayStepPy.resolve_blocked cls kwargs) as [blocked kwargs1].
  simpl in Em. unfold ArrayStepPy.abind, ArrayStepPy.lift.
  rewrite Em, Hm. reflexivity.
Qed.

Lemma BlockedStep_new_model_error_witness :
  ArrayStepPy.BlockedStep_new (Model := unit) (State := unit)
    (fun _ => Raise TypeError) (fun _ => ArrayStepPy.PyList [])
    (ArrayStepPy.mk_step_class None (fun _ _ => Ok tt))
    [ArrayStepPy.PyList []] [] 0%nat
  = (Raise TypeError, 0%nat).
Proof.
  apply (BlockedStep_new_model_error unit unit (fun _ => Raise TypeError)).
  reflexivity.
Defined.

(** X5.  Unpickling round trip: for keyword arguments with distinct keys and
    a model lookup that returns a model it is handed, calling
    [BlockedStep.__new__] again on the [__newargs] of a step it returned
    gives a new single step with the same [__newargs]. *)
Theorem BlockedStep_new_newargs_roundtrip (Model State : Type)
    (modelcontext : ArrayStepPy.pyval Model -> result Model)
    (value_vars : Model -> ArrayStepPy.pyval Model)
    (cls : ArrayStepPy.step_class Model State)
    (args : list (ArrayStepPy.pyval Model))
    (kwargs : PyDict.dict (ArrayStepPy.pyval Model))
    (created created' n : nat) (step : ArrayStepPy.step_object Model State) :
  NoDup (PyDict.keys kwargs) ->
  (forall m, modelcontext (ArrayStepPy.PyModel m) = Ok m) ->
  ArrayStepPy.BlockedStep_new modelcontext value_vars cls args kwargs created
  = (Ok (ArrayStepPy.Blocked step), n) ->
  ArrayStepPy.BlockedStep_new modelcontext value_vars cls
    (fst (ArrayStepPy.newargs step)) (snd (ArrayStepPy.newargs step)) created'
  = (Ok (ArrayStepPy.Blocked
           {| ArrayStepPy.obj_id := created';
              ArrayStepPy.obj_state := None;
              ArrayStepPy.newargs := ArrayStepPy.newargs step |}),
     S created').
Proof. apply BlockedStep_new_reconstruct. Qed.

Lemma BlockedStep_new_newargs_roundtrip_witness :
  ArrayStepPy.BlockedStep_new (Model := unit) (State := unit)
    (fun _ => Ok tt) (fun _ => ArrayStepPy.PyList [])
    (ArrayStepPy.mk_step_class None (fun _ _ => Ok tt))
    [ArrayStepPy.PyList [ArrayStepPy.PyVar "a"; ArrayStepPy.PyVar "b"]]
    [("blocked"%string, ArrayStepPy.PyBool true);
     ("model"%string, ArrayStepPy.PyModel tt)] 5%nat
  = (Ok (ArrayStepPy.Blocked
           {| ArrayStepPy.obj_id := 5%nat;
              ArrayStepPy.obj_state := None;
              ArrayStepPy.newargs :=
                ([ArrayStepPy.PyList [ArrayStepPy.PyVar "a"; ArrayStepPy.PyVar "b"]],
                 [("blocked"%string, ArrayStepPy.PyBool true);
                  ("model"%string, ArrayStepPy.PyModel tt)]) |}),
     6%nat).
Proof.
  apply (BlockedStep_new_newargs_roundtrip unit unit (fun _ => Ok tt)
           (fun _ => ArrayStepPy.PyList [])
           (ArrayStepPy.mk_step_class None (fun _ _ => Ok tt))
           []
           [("vars"%string,
             ArrayStepPy.PyList [ArrayStepPy.PyVar "a"; ArrayStepPy.PyVar "b"])]
           0%nat 5%nat 1%nat
           {| ArrayStepPy.obj_id := 0%nat;
              ArrayStepPy.obj_state := None;
              ArrayStepPy.newargs :=
                ([ArrayStepPy.PyList [ArrayStepPy.PyVar "a"; ArrayStepPy.PyVar "b"]],
                 [("blocked"%string, ArrayStepPy.PyBool true);
                  ("model"%string, ArrayStepPy.PyModel tt)]) |}).
  - repeat constructor; simpl; tauto.
  - intros []; reflexivity.
  - reflexivity.
Defined.

(** ** stop_tuning *)

(** X6.  [stop_tuning] sets [tune] to False when the object has that
    attribute and otherwise leaves the object alone: it never adds an
    attribute, never changes another one, and calling it twice is the same
    as calling it once. *)
Theorem stop_tuning_spec (Model : Type)
    (attrs : PyDict.dict (ArrayStepPy.pyval Model)) :
  PyDict.keys (ArrayStepPy.stop_tuning attrs) = PyDict.keys attrs
  /\ (PyDict.mem "tune" attrs = true ->
      PyDict.get "tune" (ArrayStepPy.stop_tuning attrs)
      = Some (ArrayStepPy.PyBool false))
  /\ (forall k, k <> "tune"%string ->
                PyDict.get k (ArrayStepPy.stop_tuning attrs) = PyDict.get k attrs)
  /\ ArrayStepPy.stop_tuning (ArrayStepPy.stop_tuning attrs)
     = ArrayStepPy.stop_tuning attrs.
Proof.
  unfold ArrayStepPy.stop_tuning.
  destruct (PyDict.mem "tune" attrs) eqn:E.
  - repeat split.
    + apply keys_set_mem, E.
    + intros _. apply get_set_same.
    + intros k Hk. apply get_set_other. congruence.
    + assert (M : PyDict.mem "tune"
                    (PyDict.set "tune" (ArrayStepPy.PyBool false) attrs) = true).
      { unfold PyDict.mem. rewrite get_set_same. reflexivity. }
      rewrite M. apply set_idem, get_set_same.
  - repeat split; try reflexivity.
    + discriminate.
    + rewrite E. reflexivity.
Qed.

(** ** link_population *)

Lemma filter_seq_others (i n : nat) :
  length (filter (fun c => negb (Nat.eqb c i)) (seq 0 n))
  = if Nat.ltb i n then (n - 1)%nat else n.
Proof.
  induction n as [|n IH]; [reflexivity|].
  rewrite seq_S, filter_app, length_app, IH. simpl.
  destruct (Nat.eqb n i) eqn:E; simpl.
  - apply Nat.eqb_eq in E; subst.
    rewrite Nat.ltb_irrefl.
    replace (i <? S i)%nat with true by (symmetry; apply Nat.ltb_lt; lia). lia.
  - apply Nat.eqb_neq in E.
    destruct (Nat.ltb i n) eqn:L.
    + apply Nat.ltb_lt in L.
      replace (i <? S n)%nat with true by (symmetry; apply Nat.ltb_lt; lia). lia.
    + apply Nat.ltb_ge in L.
      replace (i <? S n)%nat with false by (symmetry; apply Nat.ltb_ge; lia). lia.
Qed.

(** X7.  [link_population] stores the population and the chain index and
    computes [other_chains] as the indices of the population other than
    [chain_index], each once, before it checks their number: the
    fields are set even when the call then raises.  It raises a ValueError
    exactly when fewer than two other chains are left; for a chain index
    inside the population that is when the population has fewer than three
    members. *)
Theorem link_population_spec (P : Type)
    (self : ArrayStepPy.population_link (P := P)) (pop : list P)
    (chain_index : Z) :
  exists others,
    fst (ArrayStepPy.link_population self pop chain_index)
    = {| ArrayStepPy.population := Some pop;
         ArrayStepPy.this_chain := Some chain_index;
         ArrayStepPy.other_chains := Some others |}
    /\ (forall c, In c others
                  <-> (c < length pop)%nat /\ Z.of_nat c <> chain_index)
    /\ NoDup others
    /\ (snd (ArrayStepPy.link_population self pop chain_index) = Ok tt
        <-> (2 <= length others)%nat)
    /\ (snd (ArrayStepPy.link_population self pop chain_index) = Raise ValueError
        <-> (length others < 2)%nat)
    /\ ((0 <= chain_index < Z.of_nat (length pop))%Z ->
        length others = (length pop - 1)%nat).
Proof.
  unfold ArrayStepPy.link_population.
  set (others := filter (fun c => negb (Z.eqb (Z.of_nat c) chain_index))
                        (seq 0 (length pop))).
  exists others.
  assert (Hfst : forall (b : bool) (x y : ArrayStepPy.population_link (P := P)
                                           * result unit),
             fst x = fst y -> fst (if b then x else y) = fst x).
  { intros [] x y H; [reflexivity | symmetry; exact H]. }
  split; [rewrite Hfst; reflexivity|].
  split.
  { intros c. unfold others. rewrite filter_In, in_seq, negb_true_iff, Z.eqb_neq.
    split; intros [H1 H2]; split; auto; lia. }
  split.
  { unfold others. apply NoDup_filter, seq_NoDup. }
  split; [|split].
  - destruct (Nat.ltb 1 (length others)) eqn:L; simpl.
    + apply Nat.ltb_lt in L. split; [intros _; lia | reflexivity].
    + apply Nat.ltb_ge in L. split; [discriminate | lia].
  - destruct (Nat.ltb 1 (length others)) eqn:L; simpl.
    + apply Nat.ltb_lt in L. split; [discriminate | lia].
    + apply Nat.ltb_ge in L. split; [intros _; lia | reflexivity].
  - intros [H0 H1].
    assert (E : others = filter (fun c => negb (Nat.eqb c (Z.to_nat chain_index)))
                                (seq 0 (length pop))).
    { unfold others. apply filter_ext. intros c. f_equal.
      destruct (Nat.eqb c (Z.to_nat chain_index)) eqn:E.
      - apply Nat.eqb_eq in E. apply Z.eqb_eq. lia.
      - apply Nat.eqb_neq in E. apply Z.eqb_neq. lia. }
    rewrite E, filter_seq_others.
    replace (Z.to_nat chain_index <? length pop)%nat with true; [reflexivity|].
    symmetry; apply Nat.ltb_lt. lia.
Qed.

(** ** _competence *)

Lemma mapM_length {X Y : Type} (f : X -> result Y) (l : list X) (r : list Y) :
  mapM f l = Ok r -> length r = length l.
Proof.
  revert r; induction l as [|x l IH]; intros r; simpl.
  - intros E; inversion E; reflexivity.
  - destruct (f x) as [y|e]; simpl; [|discriminate].
    destruct (mapM f l) as [ys|e]; simpl; [|discriminate].
    intros E; inversion E; subst. simpl. rewrite (IH ys eq_refl). reflexivity.
Qed.

(** X8.  [_competence] pairs the variables with the gradient flags: its
    result has as many entries as the shorter of the two, so surplus
    variables or flags are ignored; when [competence] rejects the
    two-argument call with a TypeError for every pair, each entry is the
    competence computed from the variable alone; and for the base class,
    whose [competence] takes both arguments, every entry is INCOMPATIBLE. *)
Theorem competence_pairs (Var : Type)
    (competence : Var -> option bool -> result ArrayStepPy.Competence)
    (vars : list Var) (have_grad : list bool) :
  (forall l, ArrayStepPy._competence competence vars have_grad = Ok l ->
             length l = Nat.min (length vars) (length have_grad))
  /\ ((forall v g, competence v (Some g) = Raise TypeError) ->
      ArrayStepPy._competence competence vars have_grad
      = mapM (fun v => competence v None) (firstn (length have_grad) vars))
  /\ ArrayStepPy._competence ArrayStepPy.BlockedStep_competence vars have_grad
     = Ok (repeat ArrayStepPy.INCOMPATIBLE
                  (Nat.min (length vars) (length have_grad))).
Proof.
  unfold ArrayStepPy._competence. split; [|split].
  - intros l E. apply mapM_length in E. rewrite E. apply length_combine.
  - intros Hte. revert have_grad.
    induction vars as [|v vars IH]; intros [|g hg]; simpl; try reflexivity.
    rewrite Hte, IH. reflexivity.
  - revert have_grad.
    induction vars as [|v vars IH]; intros [|g hg]; simpl; try reflexivity.
    rewrite IH. reflexivity.
Qed.

(** ** ArrayStepShared.step *)

Section SharedStep.

Import PyDict Blocking ArrayStepPy.
Context {A Stats : Type}.

Lemma set_shared_ok (names : list string) (pt store : point A) :
  (forall name, In name names -> mem name pt = true) ->
  exists store',
    set_shared names pt store = (Ok tt, store')
    /\ forall k, get k store' = if in_dec string_dec k names
                                then get k pt else get k store.
Proof.
  revert store; induction names as [|n names IH]; intros store Hin; simpl.
  - exists store; split; reflexivity.
  - assert (Hn : mem n pt = true) by (apply Hin; left; reflexivity).
    apply mem_get in Hn. destruct Hn as [v Ev]. rewrite Ev.
    destruct (IH (set n v store)) as [store' [E Hget]].
    { intros name Hname; apply Hin; right; exact Hname. }
    exists store'. split; [exact E|].
    intros k. rewrite Hget.
    destruct (string_dec n k) as [->|Hne].
    + destruct (in_dec string_dec k names); [reflexivity|].
      rewrite get_set_same; symmetry; exact Ev.
    + destruct (in_dec string_dec k names); [reflexivity|].
      apply get_set_other, Hne.
Qed.

Lemma set_shared_missing (names : list string) (pt store : point A) :
  (exists name, In name names /\ get name pt = None) ->
  exists store', set_shared names pt store = (Raise KeyError, store').
Proof.
  revert store; induction names as [|n names IH]; intros store [name [Hin Hget]].
  - destruct Hin.
  - simpl. destruct (get n pt) as [v|] eqn:Ev.
    + apply IH. exists name. split; [|exact Hget].
      destruct Hin as [->|Hin]; [congruence | exact Hin].
    + eexists; reflexivity.
Qed.

End SharedStep.

(** X9.  [ArrayStepShared.step] first copies the point's value into every
    shared variable of the step method: when all their names are in the
    point, then whatever [astep] does afterwards, each of those shared
    variables holds the point's value for its name and every other shared
    value is as before. *)
Theorem shared_step_sets_shared (A Stats : Type)
    (self : ArrayStepPy.ArrayStepShared A Stats)
    (pt store : Blocking.point A) :
  (forall name, In name (ArrayStepPy.shared self) -> PyDict.mem name pt = true) ->
  forall k,
    PyDict.get k (snd (ArrayStepPy.shared_step self pt store))
    = if in_dec string_dec k (ArrayStepPy.shared self)
      then PyDict.get k pt else PyDict.get k store.
Proof.
  intros Hin k.
  destruct (set_shared_ok (ArrayStepPy.shared self) pt store Hin)
    as [store' [E Hget]].
  unfold ArrayStepPy.shared_step. rewrite E. simpl. apply Hget.
Qed.

(** X10.  When the name of a shared variable is missing from the point,
    [ArrayStepShared.step] raises a KeyError, and [astep] is never called:
    the outcome is the same for every [astep]. *)
Theorem shared_step_missing_name (A Stats : Type)
    (self : ArrayStepPy.ArrayStepShared A Stats)
    (pt store : Blocking.point A) :
  (exists name, In name (ArrayStepPy.shared self) /\ PyDict.get name pt = None) ->
  fst (ArrayStepPy.shared_step self pt store) = Raise KeyError
  /\ forall astep',
       ArrayStepPy.shared_step
         {| ArrayStepPy.shared_vars := ArrayStepPy.shared_vars self;
            ArrayStepPy.shared := ArrayStepPy.shared self;
            ArrayStepPy.shared_astep := astep' |} pt store
       = ArrayStepPy.shared_step self pt store.
Proof.
  intros Hmiss.
  destruct (set_shared_missing (ArrayStepPy.shared self) pt store Hmiss)
    as [store' E].
  unfold ArrayStepPy.shared_step; simpl. rewrite E. split; reflexivity.
Qed.

Lemma shared_step_sets_shared_witness :
  PyDict.get "x"
    (snd (ArrayStepPy.shared_step (Stats := unit)
            (ArrayStepPy.mk_ArrayStepShared ["x"%string] ["x"%string]
               (ArrayStepPy.shared_astep_plain
                  (fun _ q => Ok (ArrayStepPy.BareArray (Blocking.rv_data q)))))
            ArrayStepPy.example_point []))
  = if in_dec string_dec "x"%string ["x"%string]
    then PyDict.get "x" ArrayStepPy.example_point else PyDict.get "x" [].
Proof.
  refine (shared_step_sets_shared nat unit
            (ArrayStepPy.mk_ArrayStepShared ["x"%string] ["x"%string]
               (ArrayStepPy.shared_astep_plain
                  (fun _ q => Ok (ArrayStepPy.BareArray (Blocking.rv_data q)))))
            ArrayStepPy.example_point [] _ "x"%string).
  intros name [<-|[]]; reflexivity.
Defined.

Lemma shared_step_missing_name_witness :
  fst (ArrayStepPy.shared_step (Stats := unit)
         (ArrayStepPy.mk_ArrayStepShared ["x"%string] ["z"%string]
            (ArrayStepPy.shared_astep_plain
               (fun _ q => Ok (ArrayStepPy.BareArray (Blocking.rv_data q)))))
         ArrayStepPy.example_point [])
  = Raise KeyError.
Proof.
  apply (shared_step_missing_name nat unit
           (ArrayStepPy.mk_ArrayStepShared ["x"%string] ["z"%string]
              (ArrayStepPy.shared_astep_plain
                 (fun _ q => Ok (ArrayStepPy.BareArray (Blocking.rv_data q)))))
           ArrayStepPy.example_point []).
  exists "z"%string. split; [left; reflexivity | reflexivity].
Defined.

(** * Further properties of the multivariate module *)

(** ** quaddist_matrix *)

Section QuaddistMatrix.

Import Aesara Multivariate.

Lemma fmul_comm (x y : fl) : fmul x y = fmul y x.
Proof.
  destruct x, y; simpl; try reflexivity. f_equal; ring.
Qed.

Lemma dot_comm (xs ys : list fl) : dot xs ys = dot ys xs.
Proof.
  unfold dot. f_equal. revert ys.
  induction xs as [|x xs IH]; intros [|y ys]; simpl; try reflexivity.
  rewrite fmul_comm, IH. reflexivity.
Qed.

Lemma map_nth_seq {X : Type} (d : X) (l : list X) :
  map (fun i => nth i l d) (seq 0 (length l)) = l.
Proof.
  induction l as [|x l IH]; simpl; [reflexivity|].
  f_equal. rewrite <- seq_shift, map_map. exact IH.
Qed.

Lemma nth_map_in {X Y : Type} (f : X -> Y) (l : list X) (i : nat) (d : X) (e : Y) :
  (i < length l)%nat -> nth i (map f l) e = f (nth i l d).
Proof.
  intros H. rewrite (nth_indep _ e (f d)) by (rewrite length_map; exact H).
  apply map_nth.
Qed.

Lemma transpose_involutive (r c : nat) (l : matrix fl) :
  has_shape r c l -> (1 <= r)%nat -> (1 <= c)%nat ->
  transpose (transpose l) = l.
Proof.
  intros Hs Hr Hc.
  pose proof (hd_length_shape r c l Hs Hr) as Hhd.
  destruct Hs as [Hlen Hrows].
  assert (Ht : transpose l
               = map (fun j => map (fun row => nth j row NaN) l) (seq 0 c)).
  { unfold transpose. rewrite Hhd. reflexivity. }
  unfold transpose at 1.
  assert (Hhd' : length (hd [] (transpose l)) = r).
  { rewrite Ht. destruct c as [|c]; [lia|]. simpl. rewrite length_map. exact Hlen. }
  rewrite Hhd', <- Hlen.
  transitivity (map (fun i => nth i l []) (seq 0 (length l)));
    [|apply map_nth_seq].
  apply map_ext_in. intros i Hi. apply in_seq in Hi.
  rewrite Ht, map_map.
  assert (Hrow : length (nth i l []) = c).
  { rewrite Forall_forall in Hrows. apply Hrows, nth_In. lia. }
  transitivity (map (fun j => nth j (nth i l []) NaN) (seq 0 (length (nth i l []))));
    [|apply map_nth_seq].
  rewrite Hrow.
  apply map_ext. intros j.
  apply (nth_map_in (fun row => nth j row NaN) l i [] NaN). lia.
Qed.

Lemma quaddist_matrix_chol_gram (inv : matrix fl -> result (matrix fl))
    (r c : nat) (l : matrix fl) :
  has_shape r c l -> (1 <= r)%nat -> (1 <= c)%nat ->
  quaddist_matrix inv None (Some l) None true
  = Ok (map (fun ri => map (fun rj => dot ri rj) l) l).
Proof.
  intros Hs Hr Hc. unfold quaddist_matrix. simpl.
  unfold matrix_dot.
  rewrite (transpose_involutive r c l Hs Hr Hc).
  replace (forallb (fun row => Nat.eqb (length row) (length (transpose l))) l)
    with true; [reflexivity|].
  symmetry. apply forallb_forall. intros row Hrow.
  rewrite transpose_length, (hd_length_shape r c l Hs Hr).
  destruct Hs as [_ Hrows]. rewrite Forall_forall in Hrows.
  apply Nat.eqb_eq, Hrows, Hrow.
Qed.

End QuaddistMatrix.

(** X11.  [quaddist_matrix] raises a ValueError unless exactly one of [cov],
    [chol], [tau] is given; a covariance alone is returned unchanged, a
    precision alone is inverted, and an upper Cholesky factor
    ([lower=False]) is treated as the lower factor that is its transpose. *)
Theorem quaddist_matrix_parameterization
    (matrix_inverse : matrix fl -> result (matrix fl))
    (cov chol tau : option (matrix fl)) (lower : bool) :
  (match cov, chol, tau with
   | Some _, None, None | None, Some _, None | None, None, Some _ => False
   | _, _, _ => True
   end ->
   Multivariate.quaddist_matrix matrix_inverse cov chol tau lower = Raise ValueError)
  /\ (forall c,
        Multivariate.quaddist_matrix matrix_inverse (Some c) None None lower = Ok c)
  /\ (forall t,
        Multivariate.quaddist_matrix matrix_inverse None None (Some t) lower
        = matrix_inverse t)
  /\ (forall u,
        Multivariate.quaddist_matrix matrix_inverse None (Some u) None false
        = Multivariate.quaddist_matrix matrix_inverse None
            (Some (Aesara.transpose u)) None true).
Proof.
  repeat split.
  - destruct cov, chol, tau, lower; simpl; intros H;
      try reflexivity; contradiction H.
Qed.

(** X12.  The covariance that [quaddist_matrix] builds from a (lower)
    Cholesky factor with [r >= 1] rows and [c >= 1] columns is the [r] by
    [r] matrix of the dot products of its rows, and it is symmetric. *)
Theorem quaddist_matrix_chol_symmetric
    (matrix_inverse : matrix fl -> result (matrix fl))
    (r c : nat) (l : matrix fl) :
  has_shape r c l -> (1 <= r)%nat -> (1 <= c)%nat ->
  exists cov,
    Multivariate.quaddist_matrix matrix_inverse None (Some l) None true = Ok cov
    /\ has_shape r r cov
    /\ forall i j, (i < r)%nat -> (j < r)%nat ->
         nth j (nth i cov []) NaN = Aesara.dot (nth i l []) (nth j l [])
         /\ nth j (nth i cov []) NaN = nth i (nth j cov []) NaN.
Proof.
  intros Hs Hr Hc.
  rewrite (quaddist_matrix_chol_gram matrix_inverse r c l Hs Hr Hc).
  eexists. split; [reflexivity|].
  destruct Hs as [Hlen Hrows].
  assert (Hentry : forall i j, (i < r)%nat -> (j < r)%nat ->
            nth j (nth i (map (fun ri => map (fun rj => Aesara.dot ri rj) l) l) [])
                NaN
            = Aesara.dot (nth i l []) (nth j l [])).
  { intros i j Hi Hj.
    rewrite (nth_map_in (fun ri => map (fun rj => Aesara.dot ri rj) l) l i [] [])
      by lia.
    apply (nth_map_in (fun rj => Aesara.dot (nth i l []) rj) l j [] NaN). lia. }
  split.
  - split; [rewrite length_map; exact Hlen|].
    apply Forall_map, Forall_forall. intros row _. rewrite length_map. exact Hlen.
  - intros i j Hi Hj. split; [apply Hentry; assumption|].
    rewrite (Hentry i j Hi Hj), (Hentry j i Hj Hi). apply dot_comm.
Qed.

Lemma quaddist_matrix_chol_symmetric_witness :
  exists cov,
    Multivariate.quaddist_matrix (fun m => Ok m) None
      (Some [[Fin 1; Fin 0]; [Fin 2; Fin 3]]) None true = Ok cov
    /\ has_shape 2 2 cov
    /\ forall i j, (i < 2)%nat -> (j < 2)%nat ->
         nth j (nth i cov []) NaN
         = Aesara.dot (nth i [[Fin 1; Fin 0]; [Fin 2; Fin 3]] [])
                      (nth j [[Fin 1; Fin 0]; [Fin 2; Fin 3]] [])
         /\ nth j (nth i cov []) NaN = nth i (nth j cov []) NaN.
Proof.
  apply (quaddist_matrix_chol_symmetric (fun m => Ok m) 2 2
           [[Fin 1; Fin 0]; [Fin 2; Fin 3]]).
  - split; [reflexivity | repeat constructor].
  - lia.
  - lia.
Defined.

(** ** quaddist_tau, quaddist_parse *)

Section QuadDistMore.

Import Aesara DistMath Multivariate.

Lemma matrix_dot_rows (a b c : matrix fl) :
  matrix_dot a b = Ok c -> length c = length a.
Proof.
  unfold matrix_dot. destruct (forallb _ a); [|discriminate].
  intros E; inversion E. apply length_map.
Qed.


End QuadDistMore.

(** X13.  [quaddist_tau] has no triangular solve and never raises a
    LinAlgError; when it returns, it gives one quadratic form per residual
    row, the same validity flag as [quaddist_chol] and the log-determinant
    with the opposite sign.  [quaddist_parse] dispatches to it only for
    [mat_type = "tau"]: for any other [mat_type] it is [quaddist_parse] with
    the default. *)
Theorem quaddist_tau_spec (delta chol_mat : matrix fl) :
  Multivariate.quaddist_tau delta chol_mat <> Raise LinAlgError
  /\ (forall q ld ok,
        Multivariate.quaddist_tau delta chol_mat = Ok (q, ld, ok) ->
        length q = length delta
        /\ ok = Multivariate.chol_ok chol_mat
        /\ forall q' ld' ok',
             Multivariate.quaddist_chol delta chol_mat = Ok (q', ld', ok') ->
             ok' = ok /\ ld = fneg ld')
  /\ (forall value mu cov mat_type,
        mat_type <> "tau"%string ->
        Multivariate.quaddist_parse_mat_type value mu cov mat_type
        = Multivariate.quaddist_parse value mu cov).
Proof.
  split; [|split].
  - unfold Multivariate.quaddist_tau, Aesara.matrix_dot.
    destruct (forallb _ delta); simpl; discriminate.
  - intros q ld ok. unfold Multivariate.quaddist_tau.
    destruct (Aesara.matrix_dot delta _) as [dt|e] eqn:E; simpl; [|discriminate].
    intros H; inversion H; subst. split; [|split].
    + rewrite length_map. apply (matrix_dot_rows _ _ _ E).
    + reflexivity.
    + intros q' ld' ok'. unfold Multivariate.quaddist_chol.
      destruct (Aesara.solve_lower _ _) as [sol|e]; simpl; [|discriminate].
      intros H'; inversion H'; subst. split; reflexivity.
  - intros value mu cov mat_type Hmt.
    unfold Multivariate.quaddist_parse_mat_type, Multivariate.quaddist_parse.
    replace (String.eqb mat_type "tau") with false
      by (symmetry; apply String.eqb_neq; exact Hmt).
    reflexivity.
Qed.

(** ** MvNormal in one dimension *)

Lemma ln_sqrt_half (v : R) : 0 < v -> ln (sqrt v) = ln v / 2.
Proof.
  intros Hv. pose proof (sqrt_lt_R0 v Hv) as Hs.
  assert (E : ln v = ln (sqrt v) + ln (sqrt v)).
  { rewrite <- ln_mult by assumption. rewrite sqrt_sqrt by lra. reflexivity. }
  lra.
Qed.

(** The density of MvNormal on vectors of length one. *)
Lemma MvNormal_logp_1d (x mu v : R) :
  0 < v ->
  Multivariate.MvNormal_logp true (T1 [Fin x]) (T1 [Fin mu]) [[Fin v]]
  = Ok (T0 (Fin (- ln (2 * PI) / 2 - (x - mu) * (x - mu) / (2 * v) - ln v / 2))).
Proof.
  intros Hv.
  pose proof PI_RGT_0 as Hpi.
  pose proof (sqrt_lt_R0 v Hv) as Hs.
  unfold Multivariate.MvNormal_logp, Multivariate.quaddist_parse,
    Multivariate.cholesky, Aesara.Cholesky, Aesara.scipy_cholesky.
  simpl. unfold Aesara.chol_row; simpl. real_tests. simpl.
  replace (v + - 0) with v by lra.
  unfold Multivariate.quaddist_chol, Multivariate.chol_for_solve,
    Multivariate.chol_ok, Aesara.solve_lower. simpl.
  unfold fgt. simpl. real_tests. simpl. real_tests. simpl.
  unfold Multivariate.log_2pi. simpl. real_tests. simpl.
  rewrite bound_scalar_condition. do 3 f_equal.
  rewrite (ln_sqrt_half v Hv).
  generalize (ln v) (ln (2 * PI)); intros lv lpi.
  assert (Ev : v = sqrt v * sqrt v) by (rewrite sqrt_sqrt; lra).
  generalize dependent (sqrt v); intros s Hs Ev. subst v.
  field. lra.
Qed.

(** X14.  In one dimension, with variance [v > 0], [MvNormal.logp] is the
    log-density of the normal distribution:
    [-log(2 pi)/2 - (x - mu)^2 / (2 v) - log(v)/2]. *)
Theorem MvNormal_logp_univariate (x mu v : R) :
  0 < v ->
  Multivariate.MvNormal_logp true (T1 [Fin x]) (T1 [Fin mu]) [[Fin v]]
  = Ok (T0 (Fin (- ln (2 * PI) / 2 - (x - mu) * (x - mu) / (2 * v) - ln v / 2))).
Proof.
  exact (MvNormal_logp_1d x mu v).
Qed.

Lemma MvNormal_logp_univariate_witness :
  Multivariate.MvNormal_logp true (T1 [Fin 3]) (T1 [Fin 1]) [[Fin 4]]
  = Ok (T0 (Fin (- ln (2 * PI) / 2 - (3 - 1) * (3 - 1) / (2 * 4) - ln 4 / 2))).
Proof. apply (MvNormal_logp_univariate 3 1 4). lra. Defined.

(** ** MvStudentT *)




(** ** Dirichlet *)

Section Dirichlet.

Import DistMath Multivariate.

Lemma Dirichlet_logp_unfold (gammaln : fl -> fl) (value a : list fl) :
  length value = length a ->
  Dirichlet_logp gammaln true value a
  = Ok (T0 (if forallb (fun v => fge v (Fin 0)) value
               && forallb (fun v => fle v (Fin 1)) value
               && forallb (fun ai => fgt ai (Fin 0)) a
            then fadd (fsum (map (fun va =>
                                    fsub (logpow_fl (fst va) (fsub (snd va) (Fin 1)))
                                         (gammaln (snd va)))
                                 (combine value a)))
                      (gammaln (fsum a))
            else NInf)).
Proof.
  intros Hlen. unfold Dirichlet_logp, bvec, bzip.
  generalize (forallb (fun v => fge v (Fin 0)) value)
             (forallb (fun v => fle v (Fin 1)) value)
             (forallb (fun ai => fgt ai (Fin 0)) a).
  intros b1 b2 b3.
  rewrite Hlen, Nat.eqb_refl.
  rewrite (mapM_pure (fun va : fl * fl =>
                        fsub (logpow_fl (fst va) (fsub (snd va) (Fin 1)))
                             (gammaln (snd va)))).
  simpl bind. unfold bound; simpl negb; cbv iota.
  rewrite switch_neg_inf_scalar.
  destruct b1, b2, b3; reflexivity.
Qed.

End Dirichlet.

(** X16.  [Dirichlet.logp(value, a)], for vectors of one length, is negative
    infinity as soon as one entry of [value] is not in [0, 1] (a negative
    entry, an entry above one, a NaN) or one entry of [a] is not strictly
    positive; otherwise it is the density expression, whether or not the
    entries of [value] sum to one: the sum is not among the conditions. *)
Theorem Dirichlet_logp_spec (gammaln : fl -> fl) (value a : list fl) :
  length value = length a ->
  (Forall (fun v => fge v (Fin 0) = true /\ fle v (Fin 1) = true) value ->
   Forall (fun ai => fgt ai (Fin 0) = true) a ->
   Multivariate.Dirichlet_logp gammaln true value a
   = Ok (T0 (fadd (fsum (map (fun va =>
                               fsub (Multivariate.logpow_fl (fst va)
                                       (fsub (snd va) (Fin 1)))
                                    (gammaln (snd va)))
                            (combine value a)))
                  (gammaln (fsum a)))))
  /\ ((exists v, In v value /\ (fge v (Fin 0) = false \/ fle v (Fin 1) = false))
      \/ (exists ai, In ai a /\ fgt ai (Fin 0) = false) ->
      Multivariate.Dirichlet_logp gammaln true value a = Ok (T0 NInf)).
Proof.
  intros Hlen. rewrite (Dirichlet_logp_unfold gammaln value a Hlen). split.
  - intros Hv Ha.
    replace (forallb (fun v => fge v (Fin 0)) value) with true.
    2:{ symmetry; apply forallb_forall. rewrite Forall_forall in Hv.
        intros v Hin; apply (Hv v Hin). }
    replace (forallb (fun v => fle v (Fin 1)) value) with true.
    2:{ symmetry; apply forallb_forall. rewrite Forall_forall in Hv.
        intros v Hin; apply (Hv v Hin). }
    replace (forallb (fun ai => fgt ai (Fin 0)) a) with true.
    2:{ symmetry; apply forallb_forall. rewrite Forall_forall in Ha.
        intros ai Hin; apply (Ha ai Hin). }
    reflexivity.
  - intros Hbad.
    match goal with
    | |- Ok (T0 (if ?c then _ else _)) = _ => replace c with false;
                                               [reflexivity|]
    end.
    symmetry. rewrite !andb_false_iff.
    destruct Hbad as [[v [Hin [H|H]]]|[ai [Hin H]]].
    + left; left. apply not_true_is_false. intros F.
      rewrite forallb_forall in F. rewrite (F v Hin) in H; discriminate.
    + left; right. apply not_true_is_false. intros F.
      rewrite forallb_forall in F. rewrite (F v Hin) in H; discriminate.
    + right. apply not_true_is_false. intros F.
      rewrite forallb_forall in F. rewrite (F ai Hin) in H; discriminate.
Qed.

Lemma Dirichlet_logp_spec_witness :
  Multivariate.Dirichlet_logp (fun x => x) true
    [Fin (- (1 / 2)); Fin (3 / 2)] [Fin 1; Fin 1]
  = Ok (T0 NInf).
Proof.
  apply (Dirichlet_logp_spec (fun x => x)
           [Fin (- (1 / 2)); Fin (3 / 2)] [Fin 1; Fin 1]).
  - reflexivity.
  - left. exists (Fin (- (1 / 2))). split; [left; reflexivity|].
    left. unfold fge, fle; simpl. real_tests. reflexivity.
Defined.

(** ** Sums of finite floats *)

Lemma fsum_Fin_from (l : list R) (acc : R) :
  fold_left fadd (map Fin l) (Fin acc) = Fin (fold_left Rplus l acc).
Proof.
  revert acc; induction l as [|x l IH]; intros acc; simpl; [reflexivity|].
  apply IH.
Qed.

Lemma fsum_Fin (l : list R) : fsum (map Fin l) = Fin (fold_left Rplus l 0).
Proof. apply fsum_Fin_from. Qed.

Lemma fold_left_Rplus_acc (l : list R) (acc : R) :
  fold_left Rplus l acc = acc + fold_left Rplus l 0.
Proof.
  revert acc; induction l as [|x l IH]; intros acc; simpl; [lra|].
  rewrite (IH (acc + x)), (IH (0 + x)). lra.
Qed.

Lemma fold_left_Rplus_div (l : list R) (s acc : R) :
  fold_left Rplus (map (fun x => x / s) l) (acc / s)
  = fold_left Rplus l acc / s.
Proof.
  revert acc; induction l as [|x l IH]; intros acc; simpl; [reflexivity|].
  replace (acc / s + x / s) with ((acc + x) / s) by (unfold Rdiv; ring).
  apply IH.
Qed.

Lemma fold_left_Rplus_nonneg (l : list R) :
  Forall (fun x => 0 <= x) l -> 0 <= fold_left Rplus l 0.
Proof.
  induction l as [|x l IH]; simpl; intros H; [lra|].
  inversion H; subst. rewrite fold_left_Rplus_acc. specialize (IH H3). lra.
Qed.

Lemma le_fold_left_Rplus (l : list R) (x : R) :
  Forall (fun y => 0 <= y) l -> In x l -> x <= fold_left Rplus l 0.
Proof.
  induction l as [|y l IH]; simpl; intros H Hin; [destruct Hin|].
  inversion H; subst. rewrite fold_left_Rplus_acc.
  pose proof (fold_left_Rplus_nonneg l H3).
  destruct Hin as [->|Hin]; [lra|]. specialize (IH H3 Hin). lra.
Qed.

(** ** Multinomial.dist *)

(** X17.  [Multinomial.dist] rescales the probabilities: for non-negative
    numbers with a positive sum, the rescaled vector is the numbers divided
    by their sum, its entries lie in [0, 1] and they sum to one, so that the
    three conditions on [p] under which [Multinomial.logp] is not negative
    infinity hold after rescaling; and rescaling it again changes nothing. *)
Theorem Multinomial_dist_normalizes (p : list R) :
  Forall (fun x => 0 <= x) p ->
  0 < fold_left Rplus p 0 ->
  Multivariate.Multinomial_dist_p (map Fin p)
  = map (fun x => Fin (x / fold_left Rplus p 0)) p
  /\ Forall (fun x => fle (Fin 0) x = true /\ fle x (Fin 1) = true)
            (Multivariate.Multinomial_dist_p (map Fin p))
  /\ feq (fsum (Multivariate.Multinomial_dist_p (map Fin p))) (Fin 1) = true
  /\ Multivariate.Multinomial_dist_p (Multivariate.Multinomial_dist_p (map Fin p))
     = Multivariate.Multinomial_dist_p (map Fin p).
Proof.
  intros Hnn Hpos. set (s := fold_left Rplus p 0) in *.
  assert (E : Multivariate.Multinomial_dist_p (map Fin p)
              = map Fin (map (fun x => x / s) p)).
  { unfold Multivariate.Multinomial_dist_p. rewrite fsum_Fin. fold s.
    rewrite !map_map. apply map_ext. intros x. simpl.
    replace (Reqb s 0) with false by (symmetry; apply Reqb_false; lra).
    reflexivity. }
  assert (Esum : fold_left Rplus (map (fun x => x / s) p) 0 = 1).
  { replace 0 with (0 / s) at 1 by (unfold Rdiv; ring).
    rewrite fold_left_Rplus_div. fold s. field. lra. }
  split; [rewrite E, map_map; reflexivity|].
  split; [|split].
  - rewrite E, map_map. apply Forall_forall. intros y Hy.
    apply in_map_iff in Hy. destruct Hy as [x [<- Hx]].
    assert (H0 : 0 <= x) by (rewrite Forall_forall in Hnn; apply Hnn, Hx).
    assert (H1 : x <= s) by (apply le_fold_left_Rplus; assumption).
    assert (Hq0 : 0 <= x / s).
    { apply Rmult_le_pos; [exact H0|]. apply Rlt_le, Rinv_0_lt_compat, Hpos. }
    assert (Hq1 : x / s <= 1).
    { apply (Rmult_le_reg_r s); [exact Hpos|].
      unfold Rdiv. rewrite Rmult_assoc, Rinv_l by lra. lra. }
    unfold fle; simpl. split.
    + destruct (Rlt_dec 0 (x / s)) as [Hl|Hl].
      * replace (Rltb 0 (x / s)) with true by (symmetry; apply Rltb_true; exact Hl).
        reflexivity.
      * replace (Reqb 0 (x / s)) with true by (symmetry; apply Reqb_true; lra).
        apply orb_true_r.
    + destruct (Rlt_dec (x / s) 1) as [Hl|Hl].
      * replace (Rltb (x / s) 1) with true by (symmetry; apply Rltb_true; exact Hl).
        reflexivity.
      * replace (Reqb (x / s) 1) with true by (symmetry; apply Reqb_true; lra).
        apply orb_true_r.
  - rewrite E, fsum_Fin, Esum. simpl. apply Reqb_true. reflexivity.
  - rewrite E. unfold Multivariate.Multinomial_dist_p at 1.
    rewrite fsum_Fin, Esum, map_map. apply map_ext_in. intros x _. simpl.
    replace (Reqb 1 0) with false by (symmetry; apply Reqb_false; lra).
    f_equal. field.
Qed.

Lemma Multinomial_dist_normalizes_witness :
  Multivariate.Multinomial_dist_p (map Fin [2; 3; 5])
  = map (fun x => Fin (x / fold_left Rplus [2; 3; 5] 0)) [2; 3; 5]
  /\ Forall (fun x => fle (Fin 0) x = true /\ fle x (Fin 1) = true)
            (Multivariate.Multinomial_dist_p (map Fin [2; 3; 5]))
  /\ feq (fsum (Multivariate.Multinomial_dist_p (map Fin [2; 3; 5]))) (Fin 1) = true
  /\ Multivariate.Multinomial_dist_p
       (Multivariate.Multinomial_dist_p (map Fin [2; 3; 5]))
     = Multivariate.Multinomial_dist_p (map Fin [2; 3; 5]).
Proof.
  apply (Multinomial_dist_normalizes [2; 3; 5]).
  - repeat constructor; lra.
  - simpl. lra.
Defined.

(** ** OrderedMultinomial *)

Section Ordered.

Import Multivariate.

Lemma sig_bounds (x : R) : 0 < sig x < 1.
Proof.
  unfold sig. pose proof (exp_pos (- x)) as H.
  split.
  - apply Rdiv_lt_0_compat; lra.
  - apply (Rmult_lt_reg_r (1 + exp (- x))); [lra|].
    unfold Rdiv. rewrite Rmult_assoc, Rinv_l by lra. lra.
Qed.

Lemma sig_mono (x y : R) : x <= y -> sig x <= sig y.
Proof.
  intros H. unfold sig, Rdiv. rewrite !Rmult_1_l.
  pose proof (exp_pos (- x)). pose proof (exp_pos (- y)).
  apply Rinv_le_contravar; [lra|].
  apply Rplus_le_compat_l.
  destruct (Req_dec x y) as [->|Hne]; [lra|].
  apply Rlt_le, exp_increasing. lra.
Qed.

Lemma combine_map_Fin (a b : list R) :
  map (fun ab => fsub (fst ab) (snd ab)) (combine (map Fin a) (map Fin b))
  = map Fin (map diff (combine a b)).
Proof.
  revert b; induction a as [|x a IH]; intros [|y b]; simpl; try reflexivity.
  rewrite IH. reflexivity.
Qed.

Lemma OrderedMultinomial_p_real (eta : R) (cs : list R) :
  OrderedMultinomial_p (Fin eta) (map Fin cs)
  = map Fin (map diff
               (combine (map (fun c => sig (c + - eta)) cs ++ [1])
                        (0 :: map (fun c => sig (c + - eta)) cs))).
Proof.
  unfold OrderedMultinomial_p.
  assert (E : map (fun c => sigmoid (fsub c (Fin eta))) (map Fin cs)
              = map Fin (map (fun c => sig (c + - eta)) cs)).
  { rewrite !map_map. apply map_ext. intros c. reflexivity. }
  rewrite E. set (sigs := map (fun c => sig (c + - eta)) cs).
  change ([Fin 0] ++ map Fin sigs ++ [Fin 1])
    with (Fin 0 :: (map Fin sigs ++ [Fin 1])).
  cbn [tl].
  rewrite app_comm_cons, removelast_last.
  change (map Fin sigs ++ [Fin 1]) with (map Fin sigs ++ map Fin [1]).
  rewrite <- map_app.
  change (Fin 0 :: map Fin sigs) with (map Fin (0 :: sigs)).
  apply combine_map_Fin.
Qed.

Lemma telescope (l : list R) (a b acc : R) :
  fold_left Rplus (map diff (combine (l ++ [b]) (a :: l))) acc = acc + b - a.
Proof.
  revert a acc; induction l as [|x l IH]; intros a acc; simpl.
  - unfold diff; simpl. lra.
  - rewrite IH. unfold diff; simpl. lra.
Qed.

Lemma diffs_nonneg (l : list R) (a b : R) :
  Sorted Rle (a :: l ++ [b]) ->
  Forall (fun x => 0 <= x) (map diff (combine (l ++ [b]) (a :: l))).
Proof.
  revert a; induction l as [|x l IH]; intros a H; simpl.
  - inversion H as [|? ? _ Hd]; subst. inversion Hd; subst.
    constructor; [unfold diff; simpl; lra | constructor].
  - inversion H as [|? ? Hs Hd]; subst. inversion Hd; subst.
    constructor; [unfold diff; simpl; lra|]. apply IH, Hs.
Qed.

Lemma sorted_map_sig (eta : R) (cs : list R) :
  Sorted Rle cs ->
  Sorted Rle (0 :: map (fun c => sig (c + - eta)) cs ++ [1]).
Proof.
  intros H.
  assert (G : Sorted Rle (map (fun c => sig (c + - eta)) cs ++ [1])).
  { induction H as [|c cs Hs IH Hd]; simpl; [repeat constructor|].
    constructor; [exact IH|].
    destruct cs as [|c' cs]; simpl.
    - constructor. apply Rlt_le, sig_bounds.
    - constructor. inversion Hd; subst. apply sig_mono. lra. }
  constructor; [exact G|].
  destruct cs as [|c cs]; simpl; constructor; [lra|].
  apply Rlt_le, sig_bounds.
Qed.

End Ordered.

(** X18.  From a finite [eta] and finite cutpoints, [_OrderedMultinomial.dist]
    derives one probability more than there are cutpoints; the probabilities
    sum to one whatever the cutpoints are, so the rescaling by
    [Multinomial.dist] leaves them as they are; and when the cutpoints are in
    increasing order every probability lies in [0, 1]. *)
Theorem OrderedMultinomial_p_simplex (eta : R) (cutpoints : list R) :
  length (Multivariate.OrderedMultinomial_p (Fin eta) (map Fin cutpoints))
  = S (length cutpoints)
  /\ feq (fsum (Multivariate.OrderedMultinomial_p (Fin eta) (map Fin cutpoints)))
         (Fin 1) = true
  /\ Multivariate.Multinomial_dist_p
       (Multivariate.OrderedMultinomial_p (Fin eta) (map Fin cutpoints))
     = Multivariate.OrderedMultinomial_p (Fin eta) (map Fin cutpoints)
  /\ (Sorted Rle cutpoints ->
      Forall (fun x => fle (Fin 0) x = true /\ fle x (Fin 1) = true)
             (Multivariate.OrderedMultinomial_p (Fin eta) (map Fin cutpoints))).
Proof.
  rewrite (OrderedMultinomial_p_real eta cutpoints).
  set (sigs := map (fun c => Multivariate.sig (c + - eta)) cutpoints).
  set (ds := map Multivariate.diff (combine (sigs ++ [1]) (0 :: sigs))).
  assert (Esum : fold_left Rplus ds 0 = 1).
  { unfold ds. rewrite telescope. lra. }
  split; [|split; [|split]].
  - unfold ds. rewrite !length_map, length_combine, length_app. simpl.
    unfold sigs. rewrite length_map. lia.
  - rewrite fsum_Fin, Esum. simpl. apply Reqb_true. reflexivity.
  - unfold Multivariate.Multinomial_dist_p.
    rewrite fsum_Fin, Esum, map_map. apply map_ext. intros x. simpl.
    replace (Reqb 1 0) with false by (symmetry; apply Reqb_false; lra).
    f_equal. field.
  - intros Hsorted.
    assert (Hnn : Forall (fun x => 0 <= x) ds).
    { unfold ds. apply diffs_nonneg. apply sorted_map_sig, Hsorted. }
    apply Forall_forall. intros y Hy.
    apply in_map_iff in Hy. destruct Hy as [x [<- Hx]].
    assert (H0 : 0 <= x) by (rewrite Forall_forall in Hnn; apply Hnn, Hx).
    assert (H1 : x <= 1) by (rewrite <- Esum; apply le_fold_left_Rplus; assumption).
    unfold fle; simpl. split.
    + destruct (Rlt_dec 0 x) as [Hl|Hl].
      * replace (Rltb 0 x) with true by (symmetry; apply Rltb_true; exact Hl).
        reflexivity.
      * replace (Reqb 0 x) with true by (symmetry; apply Reqb_true; lra).
        apply orb_true_r.
    + destruct (Rlt_dec x 1) as [Hl|Hl].
      * replace (Rltb x 1) with true by (symmetry; apply Rltb_true; exact Hl).
        reflexivity.
      * replace (Reqb x 1) with true by (symmetry; apply Reqb_true; lra).
        apply orb_true_r.
Qed.

(** ** MatrixNormal *)

(** X19.  For a 1 by 1 value, with row factor [a > 0] and column factor
    [b > 0], [MatrixNormal.logp] is the log-density of the normal
    distribution with standard deviation [a * b]:
    [-log(2 pi)/2 - (x - mu)^2 / (2 a^2 b^2) - log(a) - log(b)]. *)
Theorem MatrixNormal_logp_scalar (x mu a b : R) :
  0 < a -> 0 < b ->
  Multivariate.MatrixNormal_logp (T2 [[Fin x]]) [[Fin mu]] [[Fin a]] [[Fin b]]
  = Ok (Fin (- ln (2 * PI) / 2
             - (x - mu) * (x - mu) / (2 * (a * a) * (b * b))
             - ln a - ln b)).
Proof.
  intros Ha Hb. pose proof PI_RGT_0 as Hpi.
  unfold Multivariate.MatrixNormal_logp, Aesara.solve_upper, Aesara.solve_lower,
    Aesara.matrix_dot.
  simpl. real_tests. simpl. real_tests. simpl.
  unfold Multivariate.log_2pi. simpl. real_tests. simpl.
  do 2 f_equal.
  generalize (ln a) (ln b) (ln (2 * PI)); intros la lb lpi.
  field. lra.
Qed.

Lemma MatrixNormal_logp_scalar_witness :
  Multivariate.MatrixNormal_logp (T2 [[Fin 3]]) [[Fin 1]] [[Fin 2]] [[Fin 5]]
  = Ok (Fin (- ln (2 * PI) / 2
             - (3 - 1) * (3 - 1) / (2 * (2 * 2) * (5 * 5))
             - ln 2 - ln 5)).
Proof. apply (MatrixNormal_logp_scalar 3 1 2 5); lra. Defined.

Lemma mapM_error {X Y : Type} (g : X -> result Y) (l : list X) (e : exn) :
  (forall x e', g x = Raise e' -> e' = ValueError) ->
  mapM g l = Raise e -> e = ValueError.
Proof.
  intros Hg. revert e. induction l as [|x l IH]; simpl; intros e; [discriminate|].
  destruct (g x) as [y|e1] eqn:Eg; simpl.
  - destruct (mapM g l) as [ys|e2]; simpl; [discriminate|].
    intros H; inversion H; subst. apply IH. reflexivity.
  - intros H; inversion H; subst. apply (Hg x e Eg).
Qed.

Lemma bzip_error {X Y Z : Type} (f : X -> Y -> result Z)
    (xs : list X) (ys : list Y) (e : exn) :
  (forall x y e', f x y = Raise e' -> e' = ValueError) ->
  bzip f xs ys = Raise e -> e = ValueError.
Proof.
  intros Hf. unfold bzip.
  destruct (Nat.eqb (length xs) (length ys)).
  - apply mapM_error. intros [x y] e'. apply Hf.
  - destruct xs as [|x [|x' xs]]; destruct ys as [|y [|y' ys]];
      try (intros H; inversion H; reflexivity);
      apply mapM_error; intros ? ?; apply Hf.
Qed.

(** Broadcasting fails with a ValueError and nothing else. *)
Lemma bmat_error {X Y Z : Type} (f : X -> Y -> Z)
    (a : matrix X) (b : matrix Y) (e : exn) :
  bmat f a b = Raise e -> e = ValueError.
Proof.
  unfold bmat. apply bzip_error. intros xs ys e'.
  unfold bvec. apply bzip_error. intros x y e''. discriminate.
Qed.

(** X20.  [MatrixNormal.dist] rejects a [size] argument with a
    NotImplementedError before it looks at anything else; without [size] it
    raises a ValueError unless exactly one of [rowcov], [rowchol] is given,
    and, once the row factor is there, unless exactly one of [colcov],
    [colchol] is given; and when both Cholesky factors are given it never
    factorises, so it cannot raise a LinAlgError, and returns the factors
    unchanged with [mu] broadcast to their numbers of rows. *)
Theorem MatrixNormal_dist_parameterization (mu : tensor fl)
    (rowcov rowchol colcov colchol : option (matrix fl)) :
  Multivariate.MatrixNormal_dist true mu rowcov rowchol colcov colchol
  = Raise NotImplementedError
  /\ (match rowcov, rowchol with
      | Some _, None | None, Some _ => False
      | _, _ => True
      end ->
      Multivariate.MatrixNormal_dist false mu rowcov rowchol colcov colchol
      = Raise ValueError)
  /\ (forall rl,
        match colcov, colchol with
        | Some _, None | None, Some _ => False
        | _, _ => True
        end ->
        Multivariate.MatrixNormal_dist false mu None (Some rl) colcov colchol
        = Raise ValueError)
  /\ (forall rl cl,
        Multivariate.MatrixNormal_dist false mu None (Some rl) None (Some cl)
        <> Raise LinAlgError
        /\ forall mu' r c,
             Multivariate.MatrixNormal_dist false mu None (Some rl) None (Some cl)
             = Ok (mu', r, c) ->
             r = rl /\ c = cl /\ has_shape (length rl) (length cl) mu').
Proof.
  split; [reflexivity|]. split; [|split].
  - destruct rowcov, rowchol; simpl; intros H; try reflexivity; contradiction H.
  - intros rl. destruct colcov, colchol; simpl; intros H;
      try reflexivity; contradiction H.
  - intros rl cl. unfold Multivariate.MatrixNormal_dist. simpl.
    unfold Aesara.broadcast_to.
    destruct (bmat _ (promote mu) _) as [r0|e] eqn:E; simpl.
    + destruct (Nat.eqb (length r0) (length rl)
                && forallb (fun row => Nat.eqb (length row) (length cl)) r0)
        eqn:C; simpl.
      * split; [discriminate|]. intros mu' r c H; inversion H; subst.
        apply andb_true_iff in C. destruct C as [C1 C2].
        repeat split; [apply Nat.eqb_eq, C1|].
        apply Forall_forall. intros row Hrow.
        rewrite forallb_forall in C2. apply Nat.eqb_eq, C2, Hrow.
      * split; discriminate.
    + assert (He : e = ValueError) by (exact (bmat_error _ _ _ _ E)).
      subst e. split; [discriminate|]. intros mu' r c H; discriminate.
Qed.

(** ** The packed Cholesky factor of _LKJCholeskyCov *)

Lemma cumsum_from_seq (n s acc k : nat) :
  (k < n)%nat ->
  (2 * nth k (Multivariate.cumsum_from acc (seq s n)) 0
   = 2 * acc + (k + 1) * (2 * s + k))%nat.
Proof.
  revert s acc k; induction n as [|n IH]; intros s acc k Hk; [lia|].
  cbn [seq Multivariate.cumsum_from]. destruct k as [|k]; cbn [nth].
  - lia.
  - rewrite IH by lia. nia.
Qed.

Lemma cumsum_from_length (acc : nat) (l : list nat) :
  length (Multivariate.cumsum_from acc l) = length l.
Proof.
  revert acc; induction l as [|x l IH]; intros acc; simpl; [|rewrite IH];
    reflexivity.
Qed.

Lemma triangular_even (n : nat) : exists m, (n * (n + 1) = 2 * m)%nat.
Proof.
  induction n as [|n [m Hm]]; [exists 0%nat; reflexivity|].
  exists (m + n + 1)%nat. nia.
Qed.

(** X21.  The diagonal positions that [_LKJCholeskyCov] computes for the
    packed factor of an [n] by [n] matrix, [arange(1, n + 1).cumsum() - 1],
    are [n] positions; the [k]-th is [k (k + 1) / 2 + k], the place of entry
    [(k, k)] when the lower triangle is stored row by row; each lies inside
    the packed vector of [n (n + 1) / 2] entries, and the last is its last
    entry. *)
Theorem diag_idxs_spec (n : nat) :
  length (Multivariate.diag_idxs n) = n
  /\ (2 * Multivariate.packed_shape n = n * (n + 1))%nat
  /\ forall k, (k < n)%nat ->
       (2 * nth k (Multivariate.diag_idxs n) 0 = k * (k + 1) + 2 * k)%nat
       /\ (nth k (Multivariate.diag_idxs n) 0 < Multivariate.packed_shape n)%nat
       /\ (k = n - 1 ->
           nth k (Multivariate.diag_idxs n) 0 = Multivariate.packed_shape n - 1)%nat.
Proof.
  assert (Hshape : (2 * Multivariate.packed_shape n = n * (n + 1))%nat).
  { unfold Multivariate.packed_shape.
    destruct (triangular_even n) as [m Hm]. rewrite Hm.
    replace (2 * m / 2)%nat with m; [reflexivity|].
    symmetry. rewrite (Nat.mul_comm 2 m). apply Nat.div_mul. lia. }
  split; [|split; [exact Hshape|]].
  - unfold Multivariate.diag_idxs.
    rewrite length_map, cumsum_from_length, length_seq. reflexivity.
  - intros k Hk.
    assert (Hc : (2 * nth k (Multivariate.cumsum_from 0 (seq 1 n)) 0
                  = (k + 1) * (k + 2))%nat).
    { rewrite cumsum_from_seq by exact Hk. lia. }
    assert (Hd : nth k (Multivariate.diag_idxs n) 0%nat
                 = (nth k (Multivariate.cumsum_from 0 (seq 1 n)) 0 - 1)%nat).
    { unfold Multivariate.diag_idxs.
      apply (nth_map_in (fun c => (c - 1)%nat) _ k 0%nat 0%nat).
      rewrite cumsum_from_length, length_seq. exact Hk. }
    rewrite Hd. split; [nia|]. split; [nia|]. intros Hlast. nia.
Qed.

(** The case of the specification: for [n = 3] the positions are 0, 2, 5. *)
Lemma diag_idxs_3 : Multivariate.diag_idxs 3 = [0; 2; 5]%nat.
Proof. reflexivity. Qed.

(** * Further properties of [ArrayStep.step] *)

Section StepMore.

Import PyDict Blocking ArrayStepPy.
Context {A V Stats : Type}.

Lemma get_In_NoDup {X : Type} (k : string) (v : X) (d : dict X) :
  NoDup (keys d) -> In (k, v) d -> get k d = Some v.
Proof.
  induction d as [|[k' v'] d IH]; simpl; intros Hnd Hin; [destruct Hin|].
  inversion Hnd as [|? ? Hnot Hd]; subst.
  destruct Hin as [E|Hin].
  - inversion E; subst. rewrite String.eqb_refl. reflexivity.
  - destruct (String.eqb k k') eqn:E.
    + apply String.eqb_eq in E; subst. exfalso; apply Hnot.
      unfold keys. apply in_map_iff. exists (k', v). split; [reflexivity|exact Hin].
    + apply IH; assumption.
Qed.

(** Unflattening, over a point, entries that the point already has gives the
    point back. *)
Lemma rmap_loop_same (d res : point A) :
  Forall wf_array (values d) ->
  (forall k a, In (k, a) d -> get k res = Some a) ->
  rmap_loop (point_map_info (DictToArrayBijection_map d))
            (rv_data (DictToArrayBijection_map d)) res
  = Ok res.
Proof.
  induction d as [|[k a] d IH]; intros Hwf Hin; simpl; [reflexivity|].
  inversion Hwf as [|? ? Ha Hd]; subst. unfold wf_array in Ha.
  rewrite firstn_app, Ha, Nat.sub_diag, firstn_all2 by lia.
  simpl firstn. rewrite app_nil_r, Ha, Nat.eqb_refl.
  rewrite skipn_app, Ha, Nat.sub_diag, skipn_all2 by lia.
  simpl skipn. simpl app.
  rewrite ndarray_eta.
  rewrite (set_idem k a res) by (apply Hin; left; reflexivity).
  apply IH; [exact Hd|].
  intros k' a' H; apply Hin; right; exact H.
Qed.

Lemma restrict_missing (names : list string) (pt acc : point A) :
  (exists name, In name names /\ get name pt = None) ->
  restrict names pt acc = Raise KeyError.
Proof.
  revert acc; induction names as [|n names IH]; intros acc [name [Hin Hget]].
  - destruct Hin.
  - simpl. destruct (get n pt) as [v|] eqn:Ev; [|reflexivity].
    apply IH. exists name. split; [|exact Hget].
    destruct Hin as [->|Hin]; [congruence | exact Hin].
Qed.

Lemma step_identity (self : ArrayStep A V Stats) (pt : point A) :
  Forall wf_array (values pt) ->
  (forall name, In name (vars self) -> mem name pt = true) ->
  (forall args,
      astep_output (astep self) args = Ok (BareArray (rv_data (fst (fst args))))) ->
  exists stats, step self pt = Ok (pt, stats).
Proof.
  intros Hwf Hin Hid.
  destruct (restrict_spec (vars self) pt [] Hin)
    as [d [Ed [Hget [Hnd [Hall _]]]]].
  unfold step. rewrite Ed. simpl bind.
  set (args := (DictToArrayBijection_map d,
                map (fun x => DictToArrayBijection_mapf x pt) (fs self),
                if allvars self then Some pt else None)).
  specialize (Hid args). unfold astep_output in Hid.
  assert (Hloop : rmap_loop (point_map_info (DictToArrayBijection_map d))
                            (rv_data (DictToArrayBijection_map d)) pt = Ok pt).
  { apply rmap_loop_same.
    - apply Hall; [exact Hwf | constructor].
    - intros k a Hka.
      assert (Hkd : get k d = Some a).
      { apply get_In_NoDup; [apply Hnd; constructor | exact Hka]. }
      rewrite Hget in Hkd.
      destruct (in_dec string_dec k (vars self)); [exact Hkd | discriminate]. }
  assert (Hback : forall st : option Stats,
             (point_new <- rmap_loop (point_map_info (DictToArrayBijection_map d))
                             (rv_data (DictToArrayBijection_map d)) pt ;;
              Ok (point_new, st)) = Ok (pt, st)).
  { intros st. rewrite Hloop. reflexivity. }
  destruct (astep self) as [f|f].
  - rewrite Hid. eexists. apply Hback.
  - destruct (f args) as [[a s]|e] eqn:Ef; cbn [bind] in Hid; [|discriminate].
    inversion Hid; subst a. eexists. apply Hback.
Qed.

End StepMore.

(** X22.  A step that changes nothing returns the point it was given: when
    the point's values are arrays, every variable of the step method is in
    the point and [astep] returns the flat vector it received, [step]
    succeeds and its point is the input point, entry for entry and in the
    same order. *)
Theorem step_with_identity_astep (A V Stats : Type)
    (self : ArrayStepPy.ArrayStep A V Stats) (pt : Blocking.point A) :
  Forall Blocking.wf_array (PyDict.values pt) ->
  (forall name, In name (ArrayStepPy.vars self) -> PyDict.mem name pt = true) ->
  (forall args,
      ArrayStepPy.astep_output (ArrayStepPy.astep self) args
      = Ok (ArrayStepPy.BareArray (Blocking.rv_data (fst (fst args))))) ->
  exists stats, ArrayStepPy.step self pt = Ok (pt, stats).
Proof. apply step_identity. Qed.

Lemma step_with_identity_astep_witness :
  exists stats,
    ArrayStepPy.step ArrayStepPy.example_step ArrayStepPy.example_point
    = Ok (ArrayStepPy.example_point, stats).
Proof.
  apply (step_with_identity_astep nat unit unit
           ArrayStepPy.example_step ArrayStepPy.example_point).
  - repeat constructor.
  - intros name [<-|[]]; reflexivity.
  - intros args. reflexivity.
Defined.

(** X23.  When a variable of the step method is missing from the point,
    [ArrayStep.step] raises a KeyError, whatever [astep] would do. *)
Theorem step_missing_variable (A V Stats : Type)
    (self : ArrayStepPy.ArrayStep A V Stats) (pt : Blocking.point A) :
  (exists name, In name (ArrayStepPy.vars self) /\ PyDict.get name pt = None) ->
  ArrayStepPy.step self pt = Raise KeyError.
Proof.
  intros Hmiss. unfold ArrayStepPy.step.
  rewrite (restrict_missing (ArrayStepPy.vars self) pt [] Hmiss). reflexivity.
Qed.

Lemma step_missing_variable_witness :
  ArrayStepPy.step ArrayStepPy.example_step [] = Raise KeyError.
Proof.
  apply (step_missing_variable nat unit unit ArrayStepPy.example_step []).
  exists "x"%string. split; [left; reflexivity | reflexivity].
Defined.

(** * A failing [__init__] in the compound branch *)

Section BlockedStepInitError.

Import PyDict ArrayStepPy.
Context {Model State : Type}.

(** The loop over the variables stops at the first [__init__] that raises:
    the objects of the earlier variables and of the failing one have been
    created, none for the later ones. *)
Lemma amapM_new_single_error (cls : step_class Model State)
    (args : list (pyval Model)) (kwargs : dict (pyval Model))
    (pre post : list (pyval Model)) (var : pyval Model) (e : exn)
    (created : nat) :
  (forall v, In v pre ->
             exists st, init cls (PyList [v] :: args) kwargs = Ok st) ->
  init cls (PyList [var] :: args) kwargs = Raise e ->
  amapM (new_single cls args kwargs) (pre ++ var :: post) created
  = (Raise e, S (created + length pre)).
Proof.
  revert created; induction pre as [|v pre IH]; intros created Hpre Hvar.
  - simpl. unfold abind at 1. unfold new_single.
    unfold abind, object_new, lift. rewrite Hvar.
    rewrite Nat.add_0_r. reflexivity.
  - destruct (Hpre v (or_introl eq_refl)) as [st Est].
    simpl. unfold abind at 1. unfold new_single at 1.
    unfold abind at 1 2. unfold object_new, lift, aret. rewrite Est.
    unfold abind at 1.
    rewrite (IH (S created)); [|intros w Hw; apply Hpre; right; exact Hw|exact Hvar].
    replace (S (S created + length pre)) with (S (created + S (length pre))) by lia.
    reflexivity.
Qed.

End BlockedStepInitError.

(** X24.  In the compound branch ([blocked=False], more than one variable)
    the sub-steps are built in the order of the variables and the first
    [__init__] that raises ends the call: [BlockedStep.__new__] raises that
    exception, no CompoundStep is returned, and exactly the objects for the
    variables up to and including the failing one have been created. *)
Theorem BlockedStep_new_init_error (Model State : Type)
    (modelcontext : ArrayStepPy.pyval Model -> result Model)
    (value_vars : Model -> ArrayStepPy.pyval Model)
    (cls : ArrayStepPy.step_class Model State)
    (args args' : list (ArrayStepPy.pyval Model))
    (kwargs kwargs' : PyDict.dict (ArrayStepPy.pyval Model))
    (model : Model) (vars : ArrayStepPy.pyval Model)
    (pre post : list (ArrayStepPy.pyval Model)) (var : ArrayStepPy.pyval Model)
    (e : exn) (created : nat) :
  PyDict.get "blocked" kwargs = Some (ArrayStepPy.PyBool false) ->
  modelcontext (ArrayStepPy.kwargs_get "model" kwargs) = Ok model ->
  ArrayStepPy.select_vars value_vars args
    (PyDict.set "model" (ArrayStepPy.PyModel model) kwargs) model
  = (vars, args', kwargs') ->
  ArrayStepPy.items (ArrayStepPy.as_sequence vars) = pre ++ var :: post ->
  (1 < length (pre ++ var :: post))%nat ->
  (forall v, In v pre ->
     exists st,
       ArrayStepPy.init cls (ArrayStepPy.PyList [v] :: args') kwargs' = Ok st) ->
  ArrayStepPy.init cls (ArrayStepPy.PyList [var] :: args') kwargs' = Raise e ->
  ArrayStepPy.BlockedStep_new modelcontext value_vars cls args kwargs created
  = (Raise e, S (created + length pre)).
Proof.
  intros Hblocked Hmodel Hselect Hitems Hmany Hpre Hvar.
  unfold ArrayStepPy.BlockedStep_new, ArrayStepPy.resolve_blocked,
    ArrayStepPy.kwargs_get at 1.
  rewrite Hblocked.
  unfold ArrayStepPy.abind at 1. unfold ArrayStepPy.lift. rewrite Hmodel.
  rewrite Hselect, Hitems.
  replace (Nat.eqb (length (pre ++ var :: post)) 0%nat)
    with false by (symmetry; apply Nat.eqb_neq; lia).
  replace (Nat.ltb 1%nat (length (pre ++ var :: post)))
    with true by (symmetry; apply Nat.ltb_lt; lia).
  simpl. unfold ArrayStepPy.abind at 1.
  rewrite (amapM_new_single_error cls args' kwargs' pre post var e created Hpre Hvar).
  reflexivity.
Qed.

Lemma BlockedStep_new_init_error_witness :
  ArrayStepPy.BlockedStep_new (Model := unit) (State := unit)
    (fun _ => Ok tt) (fun _ => ArrayStepPy.PyList [])
    (ArrayStepPy.mk_step_class None
       (fun a _ =>
          match a with
          | ArrayStepPy.PyList [ArrayStepPy.PyVar "b"] :: _ => Raise TypeError
          | _ => Ok tt
          end))
    [ArrayStepPy.PyList
       [ArrayStepPy.PyVar "a"; ArrayStepPy.PyVar "b"; ArrayStepPy.PyVar "c"]]
    [("blocked"%string, ArrayStepPy.PyBool false)] 0%nat
  = (Raise TypeError, 2%nat).
Proof.
  apply (BlockedStep_new_init_error unit unit (fun _ => Ok tt)
           (fun _ => ArrayStepPy.PyList [])
           (ArrayStepPy.mk_step_class None
              (fun a _ =>
                 match a with
                 | ArrayStepPy.PyList [ArrayStepPy.PyVar "b"] :: _ => Raise TypeError
                 | _ => Ok tt
                 end))
           [ArrayStepPy.PyList
              [ArrayStepPy.PyVar "a"; ArrayStepPy.PyVar "b"; ArrayStepPy.PyVar "c"]]
           []
           [("blocked"%string, ArrayStepPy.PyBool false)]
           [("blocked"%string, ArrayStepPy.PyBool false);
            ("model"%string, ArrayStepPy.PyModel tt)]
           tt
           (ArrayStepPy.PyList
              [ArrayStepPy.PyVar "a"; ArrayStepPy.PyVar "b"; ArrayStepPy.PyVar "c"])
           [ArrayStepPy.PyVar "a"] [ArrayStepPy.PyVar "c"] (ArrayStepPy.PyVar "b")
           TypeError 0%nat).
  - reflexivity.
  - reflexivity.
  - reflexivity.
  - reflexivity.
  - simpl; lia.
  - intros v [<-|[]]. exists tt. reflexivity.
  - reflexivity.
Defined.

(** * MvNormal given by a Cholesky factor *)

Lemma ln_square_abs (s : R) : s <> 0 -> ln (s * s) / 2 = ln (Rabs s).
Proof.
  intros Hs. pose proof (Rabs_pos_lt s Hs) as Ha.
  replace (s * s) with (Rabs s * Rabs s).
  - rewrite ln_mult by assumption. lra.
  - rewrite <- Rabs_mult. apply Rabs_right. nra.
Qed.

(** X25.  [MvNormal.dist] followed by [MvNormal.logp], in one dimension and
    with the distribution given by its Cholesky factor [[s]], [s] not zero:
    the covariance built is [s * s], whichever way [lower] is set, and the
    log-density is that of the normal distribution of standard deviation
    [|s|]; the sign of the factor does not matter. *)
Theorem MvNormal_chol_univariate
    (matrix_inverse : matrix fl -> result (matrix fl))
    (x mu s : R) (lower : bool) :
  s <> 0 ->
  (p <- Multivariate.MvNormal_dist matrix_inverse (T1 [Fin mu]) None None
          (Some [[Fin s]]) lower ;;
   Multivariate.MvNormal_logp true (T1 [Fin x]) (fst p) (snd p))
  = Ok (T0 (Fin (- ln (2 * PI) / 2 - (x - mu) * (x - mu) / (2 * (s * s))
                 - ln (Rabs s)))).
Proof.
  intros Hs.
  assert (Hv : 0 < s * s) by nra.
  unfold Multivariate.MvNormal_dist, Multivariate.quaddist_matrix.
  destruct lower; cbn -[IZR INR ln fact Rabs Multivariate.MvNormal_logp];
    replace (0 + s * s) with (s * s) by lra;
    rewrite (MvNormal_logp_1d x mu (s * s) Hv);
    rewrite (ln_square_abs s Hs); reflexivity.
Qed.

Lemma MvNormal_chol_univariate_witness :
  (p <- Multivariate.MvNormal_dist (fun m => Ok m) (T1 [Fin 1]) None None
          (Some [[Fin (-2)]]) false ;;
   Multivariate.MvNormal_logp true (T1 [Fin 3]) (fst p) (snd p))
  = Ok (T0 (Fin (- ln (2 * PI) / 2 - (3 - 1) * (3 - 1) / (2 * (-2 * -2))
                 - ln (Rabs (-2))))).
Proof.
  apply (MvNormal_chol_univariate (fun m => Ok m) 3 1 (-2) false). lra.
Defined.

(** * Densities that do not raise *)

Section NeverRaises.

Import Aesara DistMath Multivariate.



(** A covariance with a NaN or infinite entry does not reach the nan-on-error
    branch: the finiteness check of the factorisation raises a ValueError. *)
Lemma MvNormal_logp_nonfinite_cov_raises (cb : bool) (value mu : tensor fl)
    (cov delta : matrix fl) :
  ndim value <> 0%nat ->
  bmat fsub (promote value) (promote mu) = Ok delta ->
  all_finite cov = false ->
  MvNormal_logp cb value mu cov = Raise ValueError.
Proof.
  intros Hnd Hdelta Hcov. unfold MvNormal_logp, quaddist_parse.
  destruct value as [x|v|mv]; [contradiction Hnd; reflexivity| |];
    rewrite Hdelta; cbn [bind];
    unfold cholesky, Cholesky, scipy_cholesky; rewrite Hcov; reflexivity.
Qed.

End NeverRaises.



(** * Where the construction of a step method departs from the rule *)

(** C9 fails as stated.  [blocked=False] given by position does not reach
    [__new__]'s look-up, which reads the keyword only: over two variables a
    single blocked instance is returned.  And with a class whose [__init__]
    does not take the [model] keyword that [__new__] adds, the compound
    branch raises a TypeError at the first variable instead of returning a
    CompoundStep. *)
Lemma BlockedStep_new_not_blocked_counterexample :
  ArrayStepPy.BlockedStep_new (Model := unit) (State := unit)
    (fun _ => Ok tt) (fun _ => ArrayStepPy.PyList [])
    (ArrayStepPy.mk_step_class None (fun _ _ => Ok tt))
    [ArrayStepPy.PyList [ArrayStepPy.PyVar "a"; ArrayStepPy.PyVar "b"];
     ArrayStepPy.PyObj "fs"; ArrayStepPy.PyBool false; ArrayStepPy.PyBool false]
    [] 0%nat
  = (Ok (ArrayStepPy.Blocked
           {| ArrayStepPy.obj_id := 0%nat;
              ArrayStepPy.obj_state := None;
              ArrayStepPy.newargs :=
                ([ArrayStepPy.PyList [ArrayStepPy.PyVar "a"; ArrayStepPy.PyVar "b"];
                  ArrayStepPy.PyObj "fs"; ArrayStepPy.PyBool false;
                  ArrayStepPy.PyBool false],
                 [("blocked"%string, ArrayStepPy.PyBool true);
                  ("model"%string, ArrayStepPy.PyModel tt)]) |}),
     1%nat)
  /\ ArrayStepPy.BlockedStep_new (Model := unit) (State := unit)
       (fun _ => Ok tt) (fun _ => ArrayStepPy.PyList [])
       (ArrayStepPy.mk_step_class None
          (fun _ kwargs =>
             if PyDict.mem "model" kwargs then Raise TypeError else Ok tt))
       [ArrayStepPy.PyList [ArrayStepPy.PyVar "a"; ArrayStepPy.PyVar "b"]]
       [("blocked"%string, ArrayStepPy.PyBool false)] 0%nat
     = (Raise TypeError, 1%nat).
Proof. split; reflexivity. Qed.

(** C10 fails as stated.  The model is looked up before the variables are
    counted: with an explicitly empty list of variables and no model to be
    found, the exception of the look-up is raised, not a ValueError. *)
Lemma BlockedStep_new_no_vars_counterexample :
  ArrayStepPy.BlockedStep_new (Model := unit) (State := unit)
    (fun _ => Raise TypeError) (fun _ => ArrayStepPy.PyList [])
    (ArrayStepPy.mk_step_class None (fun _ _ => Ok tt))
    [ArrayStepPy.PyList []] [] 0%nat
  = (Raise TypeError, 0%nat).
Proof. reflexivity. Qed.
